(** * jupyterhpc: a shallow embedding of [jupyterhpc.py]

    The script submits a SLURM job that starts a notebook server, polls the
    job's error log until the server prints its token URL, opens an SSH
    tunnel and a browser, and cancels the job on a keyboard interrupt.

    Conventions of the embedding.
    - A Python [str] is a [string]; a character is a code point below 256
      (the decoded output of the remote commands).  The classes [\d], [\w],
      [.] and the white space of [str.strip] are the ones Python 3 uses on
      that range.
    - The outside world (environment variables, results of the commands,
      keyboard interrupts) is a [world]; the program threads a [state] that
      records the external operations it performed and what it printed.
    - An exception is an outcome [Raise e]; the [while] loop of [main] takes
      fuel, and [Timeout] is the outcome of a loop that used all of it. *)

From Stdlib Require Import String Ascii List ZArith Lia Bool Arith.
Import ListNotations.
Open Scope list_scope.
Open Scope string_scope.

Set Implicit Arguments.

(** ** Characters and strings *)

Module Str.

Definition code (c : ascii) : nat := nat_of_ascii c.

Definition between (a b : nat) (c : ascii) : bool :=
  ((a <=? code c) && (code c <=? b))%nat.

(** [\d] on a [str] pattern: the decimal digits. *)
Definition is_digit (c : ascii) : bool := between 48 57 c.

(** [\w] on a [str] pattern: [str.isalnum] or the underscore. *)
Definition is_word (c : ascii) : bool :=
  between 48 57 c || between 65 90 c || between 97 122 c
  || Nat.eqb (code c) 95
  || Nat.eqb (code c) 170 || Nat.eqb (code c) 178 || Nat.eqb (code c) 179
  || Nat.eqb (code c) 181 || Nat.eqb (code c) 185 || Nat.eqb (code c) 186
  || between 188 190 c || between 192 214 c || between 216 246 c
  || between 248 255 c.

(** [.] without DOTALL: anything but a line feed. *)
Definition is_dot (c : ascii) : bool := negb (Nat.eqb (code c) 10).

(** [str.isspace], the characters [str.strip] removes. *)
Definition is_space (c : ascii) : bool :=
  between 9 13 c || between 28 32 c
  || Nat.eqb (code c) 133 || Nat.eqb (code c) 160.

Fixpoint all (p : ascii -> bool) (s : string) : bool :=
  match s with
  | EmptyString => true
  | String c s' => p c && all p s'
  end.

(** [needle in hay]. *)
Fixpoint contains (needle hay : string) : bool :=
  prefix needle hay ||
  match hay with
  | EmptyString => false
  | String _ hay' => contains needle hay'
  end.

Fixpoint lstrip (s : string) : string :=
  match s with
  | EmptyString => EmptyString
  | String c s' => if is_space c then lstrip s' else s
  end.

Fixpoint rstrip (s : string) : string :=
  match s with
  | EmptyString => EmptyString
  | String c s' =>
      match rstrip s' with
      | EmptyString => if is_space c then EmptyString else String c EmptyString
      | r => String c r
      end
  end.

(** [s.strip()]. *)
Definition strip (s : string) : string := rstrip (lstrip s).

Definition is_empty (s : string) : bool :=
  match s with EmptyString => true | _ => false end.

Definition startswith (p s : string) : bool := prefix p s.

Fixpoint endswith_char (c : ascii) (s : string) : bool :=
  match s with
  | EmptyString => false
  | String d EmptyString => Ascii.eqb c d
  | String _ s' => endswith_char c s'
  end.

(** [" ".join(l)] and the like. *)
Definition join (sep : string) (l : list string) : string := String.concat sep l.

(** The number of [c] in [s]. *)
Fixpoint count (c : ascii) (s : string) : nat :=
  match s with
  | EmptyString => 0
  | String d s' => (if Ascii.eqb d c then 1 else 0) + count c s'
  end.

(** The longest prefix of [s] whose characters are in [p], and the rest. *)
Fixpoint span (p : ascii -> bool) (s : string) : string * string :=
  match s with
  | EmptyString => (EmptyString, EmptyString)
  | String c s' =>
      if p c then let (a, b) := span p s' in (String c a, b)
      else (EmptyString, s)
  end.

End Str.

(** ** Paths: [os.path.join] and [os.path.basename] on POSIX *)

Module Path.

Definition join2 (path b : string) : string :=
  if Str.startswith "/" b then b
  else if Str.is_empty path || Str.endswith_char "/" path then path ++ b
  else path ++ "/" ++ b.

Definition join (a : string) (p : list string) : string :=
  fold_left join2 p a.

(** The part of [p] after its last slash. *)
Fixpoint basename (p : string) : string :=
  match p with
  | EmptyString => EmptyString
  | String c p' =>
      if Str.contains "/" p then basename p' else p
  end.

End Path.

(** ** Regular expressions

    The patterns of the script are sequences of greedy repetitions of one
    character class (a literal character is the class of that character,
    repeated once), some of them inside a capture group, possibly followed
    by [$].  [rep] is the backtracking of such a repetition: it takes one
    more character when it can and the rest of the pattern then matches,
    and otherwise stops where it is when it has taken enough. *)

Module Re.

Record atom := Atom {
  grp : option nat;        (* the capture group the atom is in *)
  cls : ascii -> bool;
  lo  : nat;
  hi  : option nat         (* [None]: no upper bound *)
}.

Definition room (h : option nat) : bool :=
  match h with None => true | Some n => Nat.ltb 0 n end.

Definition dec (h : option nat) : option nat :=
  match h with None => None | Some n => Some (pred n) end.

Fixpoint rep (R : Type) (p : ascii -> bool) (l : nat) (h : option nat)
    (k : string -> option R) (s : string) : option (string * R) :=
  let stop :=
    if Nat.eqb l 0 then
      match k s with Some r => Some (EmptyString, r) | None => None end
    else None in
  match s with
  | EmptyString => stop
  | String c s' =>
      if p c && room h then
        match rep p (pred l) (dec h) k s' with
        | Some (chunk, r) => Some (String c chunk, r)
        | None => stop
        end
      else stop
  end.

(** Matching at the current position: the text each atom took, and what
    is left.  [fin] is the condition on what is left ([$] or nothing). *)
Fixpoint match_atoms (ats : list atom) (fin : string -> bool) (s : string)
    : option (list string * string) :=
  match ats with
  | [] => if fin s then Some ([], s) else None
  | a :: ats' =>
      match rep (cls a) (lo a) (hi a) (match_atoms ats' fin) s with
      | Some (chunk, (chunks, rest)) => Some (chunk :: chunks, rest)
      | None => None
      end
  end.

(** [$]: at the end, or before a line feed that ends the string. *)
Definition eol (s : string) : bool :=
  match s with
  | EmptyString => true
  | String c EmptyString => Nat.eqb (Str.code c) 10
  | _ => false
  end.

Definition anywhere (s : string) : bool := true.

Record pattern := Pattern { atoms : list atom; fin : string -> bool }.

(** A match object: the text taken by each atom of the pattern. *)
Definition matched := list string.

(** [re.match]: at the start of the string only (so a leading [^] holds). *)
Definition re_match (p : pattern) (s : string) : option matched :=
  match match_atoms (atoms p) (fin p) s with
  | Some (chunks, _) => Some chunks
  | None => None
  end.

(** [re.search]: the first position from which the pattern matches. *)
Fixpoint re_search (p : pattern) (s : string) : option matched :=
  match re_match p s with
  | Some m => Some m
  | None =>
      match s with
      | EmptyString => None
      | String _ s' => re_search p s'
      end
  end.

Definition in_group (n : nat) (a : atom) : bool :=
  match grp a with Some g => Nat.eqb g n | None => false end.

(** [m.group(n)]: the text of the atoms of group [n]. *)
Fixpoint group (n : nat) (ats : list atom) (m : matched) : string :=
  match ats, m with
  | a :: ats', c :: m' =>
      (if in_group n a then c else EmptyString) ++ group n ats' m'
  | _, _ => EmptyString
  end.

Fixpoint lit (g : option nat) (s : string) : list atom :=
  match s with
  | EmptyString => []
  | String c s' => Atom g (Ascii.eqb c) 1 (Some 1) :: lit g s'
  end.

Definition digits (g : option nat) (l h : nat) : atom :=
  Atom g Str.is_digit l (Some h).

Definition plus (g : option nat) (p : ascii -> bool) : atom :=
  Atom g p 1 None.

Definition dot_star : atom := Atom None Str.is_dot 0 None.

(** [\d{1,3}\.\d{1,3}\.\d{1,3}\.\d{1,3}] *)
Definition quad_atoms (g : option nat) : list atom :=
  [digits g 1 3] ++ lit g "." ++ [digits g 1 3] ++ lit g "." ++
  [digits g 1 3] ++ lit g "." ++ [digits g 1 3].

(** [http://<quads>:\d{2,4}/\?token=\w+], with the group of each part. *)
Definition url_atoms (gs gh gc gp gq gt : option nat) : list atom :=
  lit gs "http://" ++ quad_atoms gh ++ lit gc ":" ++ [digits gp 2 4] ++
  lit gq "/?token=" ++ [plus gt Str.is_word].

(** [r"Submitted batch job (\d+)"] *)
Definition job_pattern : pattern :=
  Pattern (lit None "Submitted batch job " ++ [plus (Some 1) Str.is_digit])
          anywhere.

(** [r".*(http://\d{1,3}\.\d{1,3}\.\d{1,3}\.\d{1,3}:\d{2,4}/\?token=\w+).*"] *)
Definition url_search_pattern : pattern :=
  Pattern ([dot_star] ++
           url_atoms (Some 1) (Some 1) (Some 1) (Some 1) (Some 1) (Some 1) ++
           [dot_star])
          anywhere.

(** [r"^http://(\d{1,3}\.\d{1,3}\.\d{1,3}\.\d{1,3}):(\d{2,4})/\?token=(\w+)$"] *)
Definition url_pattern : pattern :=
  Pattern (url_atoms None (Some 1) None (Some 2) None (Some 3)) eol.

(** What an atom accepts, and what a sequence of atoms accepts piece by
    piece. *)
Definition chunk_ok (a : atom) (c : string) : Prop :=
  Str.all (cls a) c = true /\ lo a <= String.length c /\
  match hi a with Some h => String.length c <= h | None => True end.

Definition ok (p : ascii -> bool) (l : nat) (h : option nat) (c : string)
    : Prop :=
  Str.all p c = true /\ l <= String.length c /\
  match h with Some n => String.length c <= n | None => True end.

Definition flat (m : list string) : string :=
  fold_right String.append EmptyString m.

(** The text taken by the atoms of a literal: one character each. *)
Fixpoint chars (s : string) : list string :=
  match s with
  | EmptyString => []
  | String c s' => String c EmptyString :: chars s'
  end.

(** The search pattern without its first and last [.*] and without the
    token. *)
Definition head_atoms (g : option nat) : list atom :=
  (lit g "http://" ++ quad_atoms g ++ lit g ":" ++ [digits g 2 4]
   ++ lit g "/?token=")%list.

End Re.


(** ** The grammar of the token URL, in words

    [http://a.b.c.d:p/?token=t] with [a], [b], [c], [d] of one to three
    digits, [p] of two to four digits and [t] of one or more word
    characters. *)

Module Url.

Definition quad (q : string) : Prop :=
  Str.all Str.is_digit q = true /\ 1 <= String.length q <= 3.

Definition port (p : string) : Prop :=
  Str.all Str.is_digit p = true /\ 2 <= String.length p <= 4.

Definition token (t : string) : Prop :=
  Str.all Str.is_word t = true /\ 1 <= String.length t.

Definition dotted (a b c d : string) : string :=
  a ++ "." ++ b ++ "." ++ c ++ "." ++ d.

Definition host (h : string) : Prop :=
  exists a b c d, quad a /\ quad b /\ quad c /\ quad d /\ h = dotted a b c d.

Definition text (h p t : string) : string :=
  "http://" ++ h ++ ":" ++ p ++ "/?token=" ++ t.

Definition well_formed (u : string) : Prop :=
  exists h p t, host h /\ port p /\ token t /\ u = text h p t.

(** The pieces of a URL, atom by atom. *)
Definition pieces (a b c d p t : string) : list string :=
  (Re.chars "http://" ++ [a; "."; b; "."; c; "."; d; ":"; p]
   ++ Re.chars "/?token=" ++ [t])%list.

Definition head_pieces (a b c d p : string) : list string :=
  (Re.chars "http://" ++ [a; "."; b; "."; c; "."; d; ":"; p]
   ++ Re.chars "/?token=")%list.

(** The URL with everything before the token, in one line. *)
Definition glue (a b c d p x : string) : string :=
  "http://" ++ a ++ "." ++ b ++ "." ++ c ++ "." ++ d ++ ":" ++ p
  ++ "/?token=" ++ x.

Definition occurs_in (u s : string) : Prop :=
  exists pre post, s = pre ++ u ++ post.

Definition present_in (s : string) : Prop :=
  exists u, well_formed u /\ occurs_in u s.

End Url.

(** ** The outside world and the state of a run *)

(** An external operation of the script. *)
Inductive op :=
| Mkstemp (path : string)                 (* tempfile.NamedTemporaryFile *)
| WriteFile (path content : string)       (* write, then close *)
| Run (argv : list string)                (* subprocess.run *)
| Sleep                                   (* time.sleep(0.5) *)
| Popen (argv : list string)              (* subprocess.Popen *)
| Browser (url : string)                  (* webbrowser.open *)
| Wait.                                   (* ssh_t.wait() *)

Record world := World {
  environ   : list (string * string);     (* os.environ *)
  tmpname   : string;                     (* the name the temporary file gets *)
  completed : nat -> list string -> Z * string * string;
      (* return code, standard output and standard error of the command
         run as the n-th operation, the two outputs as the texts they
         decode to; [Raw] below has the captured bytes *)
  sigint    : nat -> bool
      (* whether the keyboard interrupt arrives during the n-th operation *)
}.

Record state := State {
  ops : list op;                          (* operations so far, oldest first *)
  out : list string                       (* what was written to sys.stdout *)
}.

Definition initial : state := State [] [].

Inductive exn :=
| RuntimeError (msg : string)
| KeyboardInterrupt
| SystemExit (status : Z)
| UnboundLocalError (name : string)
| UnicodeDecodeError.

Inductive outcome (A : Type) :=
| Ok (a : A)
| Raise (e : exn)
| Timeout.

Arguments Raise {A} e.
Arguments Timeout {A}.

Definition M (A : Type) : Type := state -> outcome A * state.

Definition ret {A} (a : A) : M A := fun st => (Ok a, st).

Definition raise {A} (e : exn) : M A := fun st => (Raise e, st).

Definition bind {A B} (m : M A) (k : A -> M B) : M B :=
  fun st =>
    match m st with
    | (Ok a, st') => k a st'
    | (Raise e, st') => (Raise e, st')
    | (Timeout, st') => (Timeout, st')
    end.

(** [try: m  except KeyboardInterrupt: h] *)
Definition except_KeyboardInterrupt {A} (m h : M A) : M A :=
  fun st =>
    match m st with
    | (Raise KeyboardInterrupt, st') => h st'
    | r => r
    end.

Declare Scope prog_scope.
Delimit Scope prog_scope with prog.
Notation "x <- m ;; k" := (bind m (fun x => k))
  (at level 61, m at next level, right associativity) : prog_scope.
Notation "' p <- m ;; k" := (bind m (fun x => match x with p => k end))
  (at level 61, p pattern, m at next level, right associativity) : prog_scope.
Notation "m ;; k" := (bind m (fun _ => k))
  (at level 61, right associativity) : prog_scope.
Open Scope prog_scope.

Definition nl : string := String (ascii_of_nat 10) EmptyString.
Definition cr : string := String (ascii_of_nat 13) EmptyString.

(** [sys.stdout.write(s)] *)
Definition write (s : string) : M unit :=
  fun st => (Ok tt, State (ops st) (out st ++ [s])).

(** [print(s)] *)
Definition print (s : string) : M unit := write (s ++ nl).

(** The number of operations a state has seen: the index of the next one. *)
Definition tick (st : state) : nat := List.length (ops st).

Fixpoint lookup (k : string) (l : list (string * string)) : option string :=
  match l with
  | [] => None
  | (k', v) :: l' => if String.eqb k k' then Some v else lookup k l'
  end.

(** The truth value of the [default] argument: [None] and the empty string
    are false. *)
Definition truthy (d : option string) : bool :=
  match d with
  | None => false
  | Some s => negb (Str.is_empty s)
  end.

(** [SLURM_JOB.format(a0, a1, a2, a3, a4)] *)
Definition SLURM_JOB (a0 a1 a2 a3 a4 : string) : string :=
  "#!/bin/sh" ++ nl ++
  "#SBATCH --job-name " ++ a0 ++ nl ++
  "#SBATCH --error ." ++ a0 ++ "/" ++ a0 ++ "-%j.error" ++ nl ++
  "#SBATCH --output ." ++ a0 ++ "/" ++ a0 ++ "-%j.out" ++ nl ++
  "#SBATCH -N 1" ++ nl ++
  "#SBATCH --cpus-per-task 1" ++ nl ++
  "#SBATCH -n 1" ++ nl ++
  "#SBATCH --partition " ++ a1 ++ nl ++
  "#SBATCH --time " ++ a2 ++ nl ++
  nl ++
  "source " ++ a3 ++ nl ++
  "ip=`hostname`" ++ nl ++
  "cd " ++ a4 ++ nl ++
  "jupyter-notebook --no-browser --port=9700 --ip=$ip" ++ nl.

(** ** The script *)

(** Lines 153-164 of [get_jupyter_url]: the URL in the text of the error
    log, or the empty string. *)
Definition find_url (outs : string) : string :=
  if negb (Str.contains "token" outs) then EmptyString
  else
    match Re.re_search Re.url_search_pattern outs with
    | None => EmptyString
    | Some p => Re.group 1 (Re.atoms Re.url_search_pattern) p
    end.


(** Lines 191-197 of [main]: [ip], [port] and [token] when the URL matches,
    and [None] when they are left unbound. *)
Definition url_fields (url : string) : option (string * string * string) :=
  match Re.re_match Re.url_pattern url with
  | Some data =>
      let ats := Re.atoms Re.url_pattern in
      Some (Re.group 1 ats data, Re.group 2 ats data, Re.group 3 ats data)
  | None => None
  end.

(** The connection information of a text: the two steps together. *)
Definition connection_info (text : string)
    : option (string * string * string) :=
  let url := find_url text in
  if Str.is_empty url then None else url_fields url.

(** The exception of [get_var]. *)
Definition missing (var : string) : exn :=
  RuntimeError ("Please set " ++ var ++ " environment variable").

(** The command [run] executes for [cmd_list]. *)
Definition wrapped (cluster : string) (local : bool) (cmd_list : list string)
    : list string :=
  if local then cmd_list else "ssh" :: cluster :: cmd_list.

(** What [run] prints. *)
Definition run_output (debug : bool) (argv : list string) (rc : Z)
    (err : string) : list string :=
  List.app
    (if debug then [("Executing command: " ++ Str.join " " argv) ++ nl]
     else [])
    (if (rc =? 0)%Z then [] else [Str.strip err ++ nl]).

(** The commands of the loop and of the submission, as [run] executes
    them. *)
Definition error_file (job_id : string) : string :=
  Path.join ".jupyterhpc" ["jupyterhpc-" ++ job_id ++ ".error"].




Definition scancel_argv (cluster job_id : string) : list string :=
  ["ssh"; cluster; "scancel"; job_id].

Definition returncode (r : Z * string * string) : Z := fst (fst r).
Definition stdout (r : Z * string * string) : string := snd (fst r).
Definition stderr (r : Z * string * string) : string := snd r.

Section Script.

Variable w : world.

(** An external operation: it is recorded, and it is where a keyboard
    interrupt is raised.  The result is the index of the operation. *)
Definition perform (o : op) : M nat :=
  fun st =>
    let st' := State (ops st ++ [o]) (out st) in
    if sigint w (tick st) then (Raise KeyboardInterrupt, st')
    else (Ok (tick st), st').

Definition subprocess_run (argv : list string) : M (Z * string * string) :=
  t <- perform (Run argv) ;;
  ret (completed w t argv).

Definition get_var (var : string) (default : option string) : M string :=
  match lookup var (environ w) with
  | Some v => ret v
  | None =>
      if truthy default then
        match default with Some d => ret d | None => ret EmptyString end
      else
        raise (RuntimeError ("Please set " ++ var ++ " environment variable"))
  end.

Definition run (cmd_list : list string) (local debug : bool)
    : M (Z * string * string) :=
  cluster <- get_var "CLUSTER" None ;;
  let cmd_list :=
    if negb local then "ssh" :: cluster :: cmd_list else cmd_list in
  '(returncode, stdout, stderr) <- subprocess_run cmd_list ;;
  (if debug then print ("Executing command: " ++ Str.join " " cmd_list)
   else ret tt) ;;
  (if negb (returncode =? 0)%Z then print (Str.strip stderr) else ret tt) ;;
  ret (returncode, Str.strip stdout, Str.strip stderr).

Definition create_job_script : M string :=
  let name := tmpname w in
  perform (Mkstemp name) ;;
  venv <- get_var "PYTHON_VENV" None ;;
  workdir <- get_var "WORKDIR" (Some "~") ;;
  perform (WriteFile name
             (SLURM_JOB "jupyterhpc" "cpu" "3:00:00"
                (Path.join venv ["bin"; "activate"]) workdir)) ;;
  print ("SLURM script generated: " ++ name) ;;
  ret name.

Definition send_job_script (script_path : string) : M unit :=
  cluster <- get_var "CLUSTER" None ;;
  let command := ["scp"; script_path; cluster ++ ":/tmp/"] in
  run command true false ;;
  ret tt.

Definition check_job_dir : M bool :=
  print "Checking job directory" ;;
  let cmd_list := ["ls"; ".jupyterhpc"] in
  '(r, outs, err) <- run cmd_list false false ;;
  if negb (r =? 0)%Z then
    print "jupyterhpc directory does not exist" ;;
    ret false
  else
    print "jupyterhpc configuration exist" ;;
    ret true.

Definition launch_job (script_name : string) : M string :=
  print "Launching job" ;;
  let cmd_list := ["sbatch"; "/tmp/" ++ script_name] in
  '(r, outs, err) <- run cmd_list false false ;;
  if (r =? 0)%Z then
    print "Job submitted" ;;
    match Re.re_match Re.job_pattern outs with
    | Some job_match => ret (Re.group 1 (Re.atoms Re.job_pattern) job_match)
    | None => raise (RuntimeError outs)
    end
  else raise (RuntimeError outs).

Definition check_jobfailure (job_id : string) : M bool :=
  let command := ["sacct"; "-j"; job_id; "-n"] in
  '(r, outs, err) <- run command false false ;;
  if Str.contains "FAILED" outs then ret true else ret false.

Definition get_node (job_id : string) : M string :=
  let command := ["squeue"; "-j"; job_id; "-h"; "--format"; "%N"] in
  '(r, outs, err) <- run command false false ;;
  if (r =? 0)%Z then ret (Str.strip outs) else raise (RuntimeError outs).

Definition delete_job (job_id : string) : M unit :=
  print "Deleting job" ;;
  let command := ["scancel"; job_id] in
  '(r, outs, err) <- run command false false ;;
  if (r =? 0)%Z then print "Job CANCELLED"
  else raise (RuntimeError outs).

Definition get_jupyter_url (job_id : string) : M string :=
  let command := ["cat"; error_file job_id] in
  '(r, outs, err) <- run command false false ;;
  (if negb (r =? 0)%Z then write (cr ++ "Job has not started") else ret tt) ;;
  ret (find_url outs).

(** The [while not url] loop of [main]; [count] is the number of turns so
    far.  The loop is entered with [url = None], so its body runs at least
    once; it is left with the first non-empty [url]. *)
Fixpoint poll (fuel : nat) (job_id : string) (count : nat) : M string :=
  match fuel with
  | O => fun st => (Timeout, st)
  | S fuel' =>
      perform Sleep ;;
      write (cr ++ "+ Waiting URL ...   ") ;;
      let count := S count in
      (if Nat.even count then write (cr ++ ".") else ret tt) ;;
      url <- get_jupyter_url job_id ;;
      failed <- check_jobfailure job_id ;;
      if failed then
        print ("Job " ++ job_id ++ " failed please have a look at: ~/"
               ++ error_file job_id) ;;
        raise (SystemExit 1)
      else if Str.is_empty url then poll fuel' job_id count
      else ret url
  end.

(** What [main] does once the loop has given a URL. *)
Definition connect (job_id url : string) : M unit :=
  let bound := url_fields url in
  ip <- get_node job_id ;;
  match bound with
  | None => raise (UnboundLocalError "port")
  | Some (_, port, token) =>
      print ("Opening SSH tunel on node " ++ ip ++ " and port " ++ port) ;;
      print ("Jupyter token: " ++ token) ;;
      cluster <- get_var "CLUSTER" None ;;
      let cmd := ["ssh"; "-N"; cluster; "-L"; "8080:" ++ ip ++ ":" ++ port] in
      perform (Popen cmd) ;;
      perform (Browser ("http://127.0.0.1:8080/?token=" ++ token)) ;;
      except_KeyboardInterrupt
        (perform Wait ;; ret tt)
        (delete_job job_id)
  end.

Definition main (fuel : nat) : M unit :=
  script_path <- create_job_script ;;
  send_job_script script_path ;;
  let script_name := Path.basename script_path in
  job_id <- launch_job script_name ;;
  print ("Got job id " ++ job_id) ;;
  url <- poll fuel job_id 0 ;;
  connect job_id url.

End Script.

(** [run] above reads the captured outputs of a command as texts: it is
    [run] for commands whose outputs are valid UTF-8.  [Raw.run] is [run]
    over the captured bytes, with the calls of [decode()] where the source
    has them; they raise [UnicodeDecodeError] on bytes that are not valid
    UTF-8. *)
Module Raw.

(** What a pipe has captured: the UTF-8 encoding of a text, or bytes that
    are not valid UTF-8. *)
Inductive bytes :=
| Utf8 (text : string)
| Invalid.

(** [b.decode()] *)
Definition decode (b : bytes) : M string :=
  match b with
  | Utf8 text => ret text
  | Invalid => raise UnicodeDecodeError
  end.

Section Run.

Variable w : world.

(** The completed process of the [n]-th operation: its return code and
    the bytes captured from its standard output and standard error. *)
Variable captured : nat -> list string -> Z * bytes * bytes.

Definition subprocess_run (argv : list string) : M (Z * bytes * bytes) :=
  t <- perform w (Run argv) ;;
  ret (captured t argv).

Definition run (cmd_list : list string) (local debug : bool)
    : M (Z * string * string) :=
  cluster <- get_var w "CLUSTER" None ;;
  let cmd_list :=
    if negb local then "ssh" :: cluster :: cmd_list else cmd_list in
  '(returncode, stdout, stderr) <- subprocess_run cmd_list ;;
  (if debug then print ("Executing command: " ++ Str.join " " cmd_list)
   else ret tt) ;;
  (if negb (returncode =? 0)%Z then
     text <- decode stderr ;;
     print (Str.strip text)
   else ret tt) ;;
  out_text <- decode stdout ;;
  err_text <- decode stderr ;;
  ret (returncode, Str.strip out_text, Str.strip err_text).

End Run.

(** The bytes of a world whose outputs are texts. *)
Definition encoded (w : world) (t : nat) (argv : list string)
    : Z * bytes * bytes :=
  let '(rc, o, e) := completed w t argv in (rc, Utf8 o, Utf8 e).

End Raw.








(** ** Reading a run

    The operations of a run are told apart by the command they execute:
    staging and submission ([scp], [sbatch]), the two checks of the polling
    loop ([cat] of the error log, [sacct]), the node query ([squeue]) that
    [main] makes once the loop has given it a URL, and the cancellation
    ([scancel]). *)

Module Trace.

(** The command of an argument vector: what follows [ssh <cluster>], or
    the program itself for a local command. *)
Definition command (argv : list string) : string :=
  match argv with
  | "ssh" :: _ :: c :: _ => c
  | c :: _ => c
  | [] => EmptyString
  end.

Definition runs (name : string) (o : op) : bool :=
  match o with
  | Run argv => String.eqb (command argv) name
  | _ => false
  end.

(** The readiness check and the failure check. *)
Definition is_query (o : op) : bool := runs "cat" o || runs "sacct" o.

Definition is_cancel (o : op) : bool := runs "scancel" o.

Definition is_node_query (o : op) : bool := runs "squeue" o.

Definition is_sleep (o : op) : bool :=
  match o with Sleep => true | _ => false end.

Definition is_popen (o : op) : bool :=
  match o with Popen _ => true | _ => false end.

Definition is_browser (o : op) : bool :=
  match o with Browser _ => true | _ => false end.

Definition is_wait (o : op) : bool :=
  match o with Wait => true | _ => false end.

(** Before the loop: the script file, its copy and the submission. *)
Definition is_setup (o : op) : bool :=
  match o with
  | Mkstemp _ | WriteFile _ _ => true
  | _ => runs "scp" o || runs "sbatch" o
  end.

(** In the loop. *)
Definition is_poll (o : op) : bool := is_sleep o || is_query o.

(** [l] goes through the steps [ps] in order, as far as it goes. *)
Fixpoint follows (ps : list (op -> bool)) (l : list op) {struct l}
    : bool :=
  match l, ps with
  | [], _ => true
  | o :: l', p :: ps' => p o && follows ps' l'
  | _ :: _, [] => false
  end.

(** After the loop: node query, tunnel, browser, wait, cancellation. *)
Definition after_ready : list (op -> bool) :=
  [is_node_query; is_popen; is_browser; is_wait; is_cancel].

(** The states of the job in the words of the specification. *)
Inductive job_state := Submitted | Polling | Ready | Failed | Cancelled.

Definition terminal (s : job_state) : bool :=
  match s with Ready | Failed | Cancelled => true | _ => false end.

(** A cancellation of a job that is not yet terminal: a call of
    [delete_job] with no node query before it.  The specification moves
    only a non-terminal job to [Cancelled]; the cancellation of a job that
    is [Ready] leaves it [Ready]. *)
Fixpoint cancelled_early (l : list op) : bool :=
  match l with
  | [] => false
  | o :: l' =>
      if is_node_query o then false else is_cancel o || cancelled_early l'
  end.

(** Whether a finished run of [main], with outcome [r] and operations
    [l], took the job to a terminal state: [Failed] is the [exit(1)] of
    the loop, [Ready] is the loop left with a URL (the node query is what
    [main] does next), [Cancelled] is the cancellation of a job that is
    not yet terminal. *)
Definition reached (s : job_state) (r : outcome unit) (l : list op) : bool :=
  match s with
  | Failed => match r with Raise (SystemExit _) => true | _ => false end
  | Ready => existsb is_node_query l
  | Cancelled => cancelled_early l
  | _ => false
  end.

(** What holds of an operation before the loop or in the loop: it is
    neither the node query, nor the cancellation, nor a wait. *)
Definition early (o : op) : Prop :=
  is_node_query o = false /\ is_cancel o = false /\ is_wait o = false.

(** What holds of an operation after the loop: it is no check of the
    loop. *)
Definition late (o : op) : Prop := is_query o = false.

(** The last operation is the accounting query. *)
Definition ends_with_accounting (l : list op) : Prop :=
  exists l' o, l = (l' ++ [o])%list /\ runs "sacct" o = true.

(** The number of operations of a kind. *)
Definition count (P : op -> bool) (l : list op) : nat :=
  List.length (filter P l).

(** Whether a wait among the operations [l], the first of which has
    index [t], was interrupted. *)
Fixpoint wait_interrupted (w : world) (t : nat) (l : list op) : bool :=
  match l with
  | [] => false
  | o :: l' => (is_wait o && sigint w t) || wait_interrupted w (S t) l'
  end.

Definition terminal_states (r : outcome unit) (l : list op)
    : list job_state :=
  filter (fun s => reached s r l) [Ready; Failed; Cancelled].

End Trace.

(** What a computation adds to the operations of a state, and with what
    outcome: [Q t r l] for the index [t] of its first operation. *)
Definition post (A : Type) : Type := nat -> outcome A -> list op -> Prop.

Definition spec {A} (m : M A) (Q : post A) : Prop :=
  forall st,
    exists l, ops (snd (m st)) = (ops st ++ l)%list
              /\ Q (tick st) (fst (m st)) l.

(** An outcome that is neither [exit] nor an unbound variable. *)
Definition ordinary {A} (r : outcome A) : Prop :=
  match r with
  | Raise (SystemExit _) | Raise (UnboundLocalError _) => False
  | _ => True
  end.

(** No operation, at most one operation of a kind, operations of a kind. *)
Definition quiet {A} : post A :=
  fun _ r l => l = [] /\ ordinary r.

Definition one {A} (P : op -> bool) : post A :=
  fun _ r l => (l = [] \/ exists o, l = [o] /\ P o = true) /\ ordinary r.

Definition many {A} (P : op -> bool) : post A :=
  fun _ r l => forallb P l = true /\ ordinary r.

(** The post-condition of [m] followed by [k]. *)
Definition seq {A B} (Q1 : post A) (Q2 : A -> post B) : post B :=
  fun t r l =>
    (exists a l1 l2,
        l = (l1 ++ l2)%list /\ Q1 t (Ok a) l1
        /\ Q2 a (t + List.length l1) r l2)
    \/ (exists e, r = Raise e /\ Q1 t (Raise e) l)
    \/ (r = Timeout /\ Q1 t Timeout l).

(** What the readiness check, the loop and the rest of [main] add. *)
Definition url_post : post string :=
  fun _ r l =>
    (l = [] \/ exists o, l = [o] /\ Trace.is_query o = true) /\
    match r with
    | Ok url => exists outs, url = find_url outs
    | _ => ordinary r
    end.

Definition poll_post : post string :=
  fun _ r l =>
    forallb Trace.is_poll l = true /\
    match r with
    | Ok url => Url.well_formed url
    | Raise (SystemExit s) => s = 1%Z /\ Trace.ends_with_accounting l
    | Raise (UnboundLocalError _) => False
    | _ => True
    end.

(** No operation and a value. *)
Definition fine {A} : post A :=
  fun _ r l => l = [] /\ exists a, r = Ok a.

(** Exactly one operation of a kind. *)
Definition once {A} (P : op -> bool) : post A :=
  fun _ r l => (exists o, l = [o] /\ P o = true) /\ ordinary r.

(** The operations follow the steps [ps], and the last step is there
    exactly when the one before it was interrupted. *)
Definition tail_post (w : world) (ps : list (op -> bool)) : post unit :=
  fun t r l =>
    Trace.follows ps l = true /\
    (List.length l = List.length ps <->
     List.length ps - 1 <= List.length l /\
     sigint w (t + (List.length ps - 2)) = true) /\
    ordinary r.

(** After the loop the operations follow [Trace.after_ready], and the
    cancellation is there exactly when the wait was interrupted. *)
Definition connect_post (w : world) : post unit :=
  tail_post w Trace.after_ready.

Definition main_post (w : world) : post unit :=
  fun t r l =>
    exists l0 l1 l2,
      l = (l0 ++ l1 ++ l2)%list /\
      forallb Trace.is_setup l0 = true /\
      forallb Trace.is_poll l1 = true /\
      Trace.follows Trace.after_ready l2 = true /\
      (List.length l2 = 5 <->
       4 <= List.length l2 /\
       sigint w (t + List.length l0 + List.length l1 + 3) = true) /\
      match r with
      | Raise (SystemExit s) =>
          s = 1%Z /\ l2 = [] /\ Trace.ends_with_accounting l1
      | Raise (UnboundLocalError _) => False
      | _ => True
      end.

(** Where the keyboard interrupt goes: an operation that is interrupted,
    and is not a wait, is the last operation of the computation, and the
    interrupt is its outcome. *)
Definition propagates (w : world) {A} : post A :=
  fun t r l =>
    forall i o,
      nth_error l i = Some o -> sigint w (t + i) = true ->
      Trace.is_wait o = false ->
      S i = List.length l /\ r = Raise KeyboardInterrupt.

(** ** Worlds to run the script in *)

Module Demo.

Definition env : list (string * string) :=
  [("CLUSTER", "hpc1"); ("PYTHON_VENV", "/home/u/venv")].

Definition log_text : string :=
  "[I 10:00:01 NotebookApp] The Jupyter Notebook is running at:" ++ nl ++
  "[I 10:00:01 NotebookApp] http://10.0.0.5:9700/?token=abc123 " ++ nl.

Definition silence : Z * string * string :=
  (0%Z, EmptyString, EmptyString).

(** The answers of the cluster: [sbatch] and [sacct] answer as given, the
    error log is missing before operation [ready] and has [log_text]
    from then on, the job runs on [node05]. *)
Definition respond (sbatch sacct : Z * string * string) (ready : nat)
    (t : nat) (argv : list string) : Z * string * string :=
  let c := Trace.command argv in
  if String.eqb c "sbatch" then sbatch
  else if String.eqb c "cat" then
    if Nat.leb ready t then (0%Z, log_text, EmptyString)
    else (1%Z, EmptyString, "cat: .jupyterhpc/jupyterhpc-4821.error: No such file")
  else if String.eqb c "sacct" then sacct
  else if String.eqb c "squeue" then (0%Z, "node05" ++ nl, EmptyString)
  else silence.

Definition submitted : Z * string * string :=
  (0%Z, "Submitted batch job 4821" ++ nl, EmptyString).

Definition running : Z * string * string :=
  (0%Z, "4821 jupyterhpc cpu RUNNING 0:0", EmptyString).

Definition failed : Z * string * string :=
  (0%Z, "4821 jupyterhpc cpu FAILED 1:0", EmptyString).

Definition never (t : nat) : bool := false.

Definition during (n t : nat) : bool := Nat.eqb t n.

Definition tmp : string := "/tmp/jupyterhpcab12cd".


(** The same, with the interrupt during the wait on the tunnel. *)
Definition interrupted_wait : world :=
  World env tmp (respond submitted running 8) (during 13).

(** The same, with the interrupt during the first sleep of the loop. *)
Definition interrupted_poll : world :=
  World env tmp (respond submitted running 8) (during 4).

(** The log has the URL at once, and the accounting says FAILED. *)
Definition failing : world :=
  World env tmp (respond submitted failed 0) never.



(** Nothing is set in the environment. *)
Definition bare : world :=
  World [] tmp (respond submitted running 8) never.


End Demo.

(** * Properties *)

Unset Implicit Arguments.

(** ** Strings *)

Module StrFacts.
Import Str.

Lemma app_nil_r (s : string) : s ++ EmptyString = s.
Proof. induction s; simpl; congruence. Qed.

Lemma app_assoc (a b c : string) : (a ++ b) ++ c = a ++ (b ++ c).
Proof. induction a; simpl; congruence. Qed.

Lemma length_app (a b : string) :
  String.length (a ++ b) = String.length a + String.length b.
Proof. induction a; simpl; congruence. Qed.

Lemma app_inv_head (a b c : string) : a ++ b = a ++ c -> b = c.
Proof. induction a; simpl; intros H; [assumption | injection H; auto]. Qed.

Lemma length_zero (s : string) : String.length s = 0 -> s = EmptyString.
Proof. destruct s; simpl; [reflexivity | discriminate]. Qed.

Lemma all_app (p : ascii -> bool) (a b : string) :
  all p (a ++ b) = all p a && all p b.
Proof.
  induction a; simpl; [reflexivity |].
  rewrite IHa. apply andb_assoc.
Qed.

Lemma prefix_app (p s : string) : prefix p (p ++ s) = true.
Proof.
  induction p as [| c p IH]; simpl.
  - destruct s; reflexivity.
  - destruct (ascii_dec c c); [exact IH | congruence].
Qed.

Lemma prefix_split (p s : string) :
  prefix p s = true -> exists r, s = p ++ r.
Proof.
  revert s. induction p as [| c p IH]; intros s H.
  - exists s. reflexivity.
  - destruct s as [| d s]; simpl in H; [discriminate |].
    destruct (ascii_dec c d); [| discriminate].
    destruct (IH _ H) as [r ->]. subst. exists r. reflexivity.
Qed.

Lemma contains_prefix (n s : string) :
  prefix n s = true -> contains n s = true.
Proof. intros H. destruct s; cbn [contains]; rewrite H; reflexivity. Qed.

Lemma contains_here (n s : string) : contains n (n ++ s) = true.
Proof. apply contains_prefix, prefix_app. Qed.

Lemma contains_app (n a b : string) : contains n (a ++ n ++ b) = true.
Proof.
  induction a as [| c a IH]; simpl.
  - apply contains_here.
  - simpl in IH. rewrite IH. apply orb_true_r.
Qed.

Lemma contains_split (n s : string) :
  contains n s = true -> exists a b, s = a ++ n ++ b.
Proof.
  induction s as [| c s IH]; simpl; intros H.
  - rewrite orb_false_r in H. destruct n; [| discriminate].
    exists EmptyString, EmptyString. reflexivity.
  - apply orb_true_iff in H. destruct H as [H | H].
    + destruct (prefix_split n (String c s) H) as [r Hr].
      exists EmptyString, r. exact Hr.
    + destruct (IH H) as (a & b & ->).
      exists (String c a), b. reflexivity.
Qed.

(** A needle without white space is in a text when it is in the stripped
    text. *)
Lemma prefix_head (c d : ascii) (n s : string) :
  c <> d -> prefix (String c n) (String d s) = false.
Proof. intros H. simpl. destruct (ascii_dec c d); congruence. Qed.



Lemma prefix_all_space (c : ascii) (n s : string) :
  is_space c = false -> all is_space s = true ->
  prefix (String c n) s = false.
Proof.
  intros Hc Hs. destruct s as [| d s]; [reflexivity |].
  apply prefix_head. intros ->. simpl in Hs.
  rewrite Hc in Hs. discriminate.
Qed.

Lemma contains_all_space (c : ascii) (n s : string) :
  is_space c = false -> all is_space s = true ->
  contains (String c n) s = false.
Proof.
  intros Hc. induction s as [| d s IH]; intros Hs; [reflexivity |].
  cbn [contains]. rewrite prefix_all_space by assumption.
  simpl in Hs. apply andb_true_iff in Hs. apply IH, Hs.
Qed.






Lemma span_app (p : ascii -> bool) (s : string) :
  let (a, b) := span p s in
  s = a ++ b /\ all p a = true /\
  match b with String c _ => p c = false | EmptyString => True end.
Proof.
  induction s as [| c s IH]; simpl; [auto |].
  destruct (p c) eqn:Hc.
  - destruct (span p s) as [a b]. destruct IH as (-> & Ha & Hb).
    simpl. rewrite Hc, Ha. auto.
  - simpl. auto.
Qed.

(** Two ways to cut a text into a run of [p] and something that does not
    go on with [p] are the same. *)
Lemma run_unique (p : ascii -> bool) (a b a' b' : string) :
  a ++ b = a' ++ b' ->
  all p a = true -> all p a' = true ->
  match b with String c _ => p c = false | EmptyString => True end ->
  match b' with String c _ => p c = false | EmptyString => True end ->
  a = a' /\ b = b'.
Proof.
  revert a'. induction a as [| c a IH]; intros a' E Ha Ha' Hb Hb'.
  - destruct a' as [| c' a']; [auto |].
    simpl in E. subst b. simpl in Ha'.
    apply andb_true_iff in Ha'. destruct Ha' as [Hc' _]. congruence.
  - destruct a' as [| c' a'].
    + simpl in E. subst b'. simpl in Ha.
      apply andb_true_iff in Ha. destruct Ha as [Hc _]. congruence.
    + simpl in E. injection E as -> E.
      simpl in Ha, Ha'.
      apply andb_true_iff in Ha. apply andb_true_iff in Ha'.
      destruct (IH a' E) as [-> ->]; tauto.
Qed.

End StrFacts.

(** ** The backtracking matcher *)

Module ReFacts.
Import Re StrFacts.


Lemma chunk_ok_ok (a : atom) (c : string) :
  chunk_ok a c <-> ok (cls a) (lo a) (hi a) c.
Proof. reflexivity. Qed.

Lemma flat_cons (c : string) (m : list string) : flat (c :: m) = c ++ flat m.
Proof. reflexivity. Qed.

Lemma flat_app (m1 m2 : list string) :
  flat (m1 ++ m2)%list = flat m1 ++ flat m2.
Proof.
  induction m1 as [| c m1 IH]; [reflexivity |].
  change (flat ((c :: m1) ++ m2)%list) with (c ++ flat (m1 ++ m2)%list).
  rewrite IH, flat_cons, app_assoc. reflexivity.
Qed.

Lemma flat_chars (s : string) : flat (chars s) = s.
Proof.
  induction s as [| c s IH]; [reflexivity |].
  cbn [chars]. rewrite flat_cons, IH. reflexivity.
Qed.

(** What [rep] returns is a cut of the text: a piece the repetition
    accepts, and a rest on which the continuation gave the result. *)
Lemma rep_sound (R : Type) p (k : string -> option R) s :
  forall l h chunk r,
    rep p l h k s = Some (chunk, r) ->
    exists rest, s = chunk ++ rest /\ ok p l h chunk /\ k rest = Some r.
Proof.
  assert (Hstop : forall l h chunk r s0,
    (if Nat.eqb l 0 then
       match k s0 with Some r => Some (EmptyString, r) | None => None end
     else None) = Some (chunk, r) ->
    exists rest, s0 = chunk ++ rest /\ ok p l h chunk /\ k rest = Some r).
  { intros l h chunk r s0 H.
    destruct (Nat.eqb l 0) eqn:El; [| discriminate].
    apply Nat.eqb_eq in El. subst l.
    destruct (k s0) as [r0 |] eqn:Ek; [| discriminate].
    injection H as <- <-. exists s0. repeat split; simpl; auto.
    destruct h; simpl; auto with arith. }
  induction s as [| c s IH]; intros l h chunk r H.
  - apply Hstop. exact H.
  - cbn [rep] in H.
    destruct (p c && room h) eqn:Ec; [| apply Hstop; exact H].
    destruct (rep p (pred l) (dec h) k s) as [[chunk' r'] |] eqn:Er;
      [| apply Hstop; exact H].
    injection H as <- <-.
    destruct (IH _ _ _ _ Er) as (rest & -> & (Ha & Hl & Hh) & Hk).
    apply andb_true_iff in Ec. destruct Ec as [Hc Hroom].
    exists rest. repeat split; simpl; auto.
    + rewrite Hc, Ha. reflexivity.
    + lia.
    + destruct h as [n |]; simpl in *; [| exact I].
      apply Nat.ltb_lt in Hroom. lia.
Qed.

(** Any cut the pattern accepts makes [rep] succeed (on that cut or on
    one it tries before). *)
Lemma rep_complete (R : Type) p (k : string -> option R) chunk rest :
  forall l h,
    ok p l h chunk -> k rest <> None ->
    rep p l h k (chunk ++ rest) <> None.
Proof.
  induction chunk as [| c chunk IH]; intros l h (Ha & Hl & Hh) Hk.
  - simpl in Hl. assert (l = 0) by lia. subst l.
    destruct (k rest) as [r |] eqn:Ek; [| congruence].
    destruct rest as [| d rest]; simpl.
    + rewrite Ek. discriminate.
    + destruct (p d && room h);
        [destruct (rep p 0 (dec h) k rest) as [[? ?] |] |];
        rewrite ?Ek; discriminate.
  - simpl in Ha, Hl, Hh. apply andb_true_iff in Ha. destruct Ha as [Hc Ha].
    assert (Hroom : room h = true).
    { destruct h as [n |]; simpl; [| reflexivity]. apply Nat.ltb_lt. lia. }
    cbn [append rep]. rewrite Hc, Hroom. cbn [andb].
    assert (Hin : rep p (pred l) (dec h) k (chunk ++ rest) <> None).
    { apply IH; [| exact Hk]. repeat split; [exact Ha | lia |].
      destruct h as [n |]; simpl; [lia | exact I]. }
    destruct (rep p (pred l) (dec h) k (chunk ++ rest)) as [[? ?] |];
      [discriminate | congruence].
Qed.

(** An unbounded repetition before a continuation that accepts takes the
    longest run. *)
Lemma rep_greedy (R : Type) p (k : string -> option R) s :
  forall l r,
    l <= String.length (fst (Str.span p s)) ->
    k (snd (Str.span p s)) = Some r ->
    rep p l None k s = Some (fst (Str.span p s), r).
Proof.
  induction s as [| c s IH]; intros l r Hl Hk.
  - simpl in *. assert (l = 0) by lia. subst l. simpl. rewrite Hk. reflexivity.
  - cbn [Str.span] in *. destruct (p c) eqn:Hc.
    + destruct (Str.span p s) as [a b] eqn:Es. simpl in Hl, Hk.
      cbn [rep]. rewrite Hc. cbn [room andb dec].
      rewrite (IH (pred l) r); [reflexivity | simpl; lia | exact Hk].
    + simpl in Hl, Hk. assert (l = 0) by lia. subst l.
      cbn [rep]. rewrite Hc. cbn [andb Nat.eqb]. rewrite Hk. reflexivity.
Qed.

Lemma rep_short (R : Type) p (k : string -> option R) s :
  forall l,
    String.length (fst (Str.span p s)) < l ->
    rep p l None k s = None.
Proof.
  induction s as [| c s IH]; intros l Hl.
  - simpl in *. destruct l; [lia | reflexivity].
  - cbn [Str.span] in *. cbn [rep]. destruct (p c) eqn:Hc.
    + destruct (Str.span p s) as [a b] eqn:Es. simpl in Hl.
      cbn [room andb dec]. rewrite (IH (pred l)) by (simpl; lia).
      destruct l; [lia | reflexivity].
    + simpl in Hl. cbn [andb]. destruct l; [lia | reflexivity].
Qed.


Lemma match_atoms_split a1 : forall a2 f s chunks rest,
  match_atoms (a1 ++ a2)%list f s = Some (chunks, rest) ->
  exists c1 c2 mid,
    chunks = (c1 ++ c2)%list /\ Forall2 chunk_ok a1 c1 /\
    s = flat c1 ++ mid /\ match_atoms a2 f mid = Some (c2, rest).
Proof.
  induction a1 as [| a a1 IH]; intros a2 f s chunks rest H.
  - exists [], chunks, s. repeat split; [constructor | exact H].
  - cbn [List.app match_atoms] in H.
    destruct (rep (cls a) (lo a) (hi a) (match_atoms (a1 ++ a2)%list f) s)
      as [[chunk [cs rest0]] |] eqn:Er; [| discriminate].
    injection H as <- <-.
    destruct (rep_sound _ _ _ _ _ _ _ _ Er) as (mid0 & -> & Hok & Hk).
    destruct (IH _ _ _ _ _ Hk) as (c1 & c2 & mid & -> & HF & -> & Hm).
    exists (chunk :: c1), c2, mid. repeat split.
    + constructor; [exact Hok | exact HF].
    + rewrite flat_cons, app_assoc. reflexivity.
    + exact Hm.
Qed.

Lemma match_atoms_sound ats f s chunks rest :
  match_atoms ats f s = Some (chunks, rest) ->
  Forall2 chunk_ok ats chunks /\ s = flat chunks ++ rest /\ f rest = true.
Proof.
  intros H. rewrite <- (List.app_nil_r ats) in H.
  destruct (match_atoms_split _ _ _ _ _ _ H) as (c1 & c2 & mid & -> & HF & -> & Hm).
  simpl in Hm. destruct (f mid) eqn:Ef; [| discriminate].
  injection Hm as <- <-. rewrite List.app_nil_r. auto.
Qed.

Lemma match_atoms_complete ats f : forall chunks rest,
  Forall2 chunk_ok ats chunks -> f rest = true ->
  match_atoms ats f (flat chunks ++ rest) <> None.
Proof.
  induction ats as [| a ats IH]; intros chunks rest HF Hf.
  - inversion HF; subst. simpl. rewrite Hf. discriminate.
  - inversion HF as [| a0 c ats0 cs Hok HF']; subst.
    cbn [match_atoms]. rewrite flat_cons, app_assoc.
    pose proof (rep_complete _ (cls a) (match_atoms ats f) c (flat cs ++ rest)
                  (lo a) (hi a) Hok (IH _ _ HF' Hf)) as Hr.
    destruct (rep (cls a) (lo a) (hi a) (match_atoms ats f)
                (c ++ flat cs ++ rest)) as [[? [? ?]] |];
      [discriminate | congruence].
Qed.




(** [re.search] succeeds when the pattern matches from some position,
    and what it returns is a match from some position. *)
Lemma re_search_complete p pre s :
  re_match p s <> None -> re_search p (pre ++ s) <> None.
Proof.
  intros H. induction pre as [| c pre IH]; simpl.
  - destruct s; simpl; destruct (re_match p _); congruence.
  - destruct (re_match p (String c (pre ++ s))); [discriminate | exact IH].
Qed.

Lemma re_search_sound p s m :
  re_search p s = Some m ->
  exists pre s', s = pre ++ s' /\ re_match p s' = Some m.
Proof.
  induction s as [| c s IH]; simpl.
  - destruct (re_match p EmptyString) eqn:E; [| discriminate].
    intros [= <-]. exists EmptyString, EmptyString. auto.
  - destruct (re_match p (String c s)) eqn:E.
    + intros [= <-]. exists EmptyString, (String c s). auto.
    + intros H. destruct (IH H) as (pre & s' & -> & Hm).
      exists (String c pre), s'. auto.
Qed.

Lemma re_match_sound p s m :
  re_match p s = Some m ->
  exists rest, Forall2 chunk_ok (atoms p) m /\ s = flat m ++ rest /\
               fin p rest = true.
Proof.
  unfold re_match. destruct (match_atoms (atoms p) (fin p) s) as [[cs rest] |] eqn:E;
    [| discriminate].
  intros [= <-]. exists rest. apply match_atoms_sound. exact E.
Qed.

Lemma re_match_complete p m rest :
  Forall2 chunk_ok (atoms p) m -> fin p rest = true ->
  re_match p (flat m ++ rest) <> None.
Proof.
  intros HF Hf. unfold re_match.
  pose proof (match_atoms_complete _ _ _ _ HF Hf) as H.
  destruct (match_atoms (atoms p) (fin p) (flat m ++ rest)) as [[? ?] |];
    [discriminate | congruence].
Qed.

End ReFacts.

(** The patterns on the texts of the specification. *)
Example job_pattern_4821 :
  option_map (Re.group 1 (Re.atoms Re.job_pattern))
             (Re.re_match Re.job_pattern "Submitted batch job 4821")
  = Some "4821".
Proof. reflexivity. Qed.

Example url_search_scenario :
  option_map (Re.group 1 (Re.atoms Re.url_search_pattern))
             (Re.re_search Re.url_search_pattern
                "[I 10:00] http://10.0.0.5:9700/?token=abc123 :: ok")
  = Some "http://10.0.0.5:9700/?token=abc123".
Proof. vm_compute. reflexivity. Qed.

(** ** The URL patterns and the grammar *)

Module UrlFacts.
Import Re Url StrFacts ReFacts.


Lemma flat_pieces a b c d p t :
  flat (pieces a b c d p t) = Url.text (Url.dotted a b c d) p t.
Proof.
  unfold pieces, Url.text, Url.dotted. cbn.
  repeat (progress (rewrite ?app_assoc; cbn [append])).
  rewrite app_nil_r. reflexivity.
Qed.

Lemma lit_chunk g c x :
  chunk_ok (Atom g (Ascii.eqb c) 1 (Some 1)) x -> x = String c EmptyString.
Proof.
  intros (Ha & Hl & Hh). simpl in *.
  destruct x as [| d [| e x]]; simpl in *; try lia.
  rewrite andb_true_r in Ha. apply Ascii.eqb_eq in Ha. congruence.
Qed.

Lemma lit_chunk_ok g c : chunk_ok (Atom g (Ascii.eqb c) 1 (Some 1)) (String c EmptyString).
Proof.
  repeat split; simpl; auto. rewrite Ascii.eqb_refl. reflexivity.
Qed.

Ltac invert_chunks :=
  repeat match goal with
  | H : Forall2 _ (_ :: _) _ |- _ => inversion H; subst; clear H
  | H : Forall2 _ [] _ |- _ => inversion H; subst; clear H
  | H : chunk_ok (Atom _ (Ascii.eqb _) 1 (Some 1)) _ |- _ =>
      apply lit_chunk in H; subst
  end.

Lemma url_chunks gs gh gc gp gq gt cs :
  Forall2 chunk_ok (url_atoms gs gh gc gp gq gt) cs <->
  exists a b c d p t,
    Url.quad a /\ Url.quad b /\ Url.quad c /\ Url.quad d /\
    Url.port p /\ Url.token t /\ cs = pieces a b c d p t.
Proof.
  split.
  - intros H. cbn in H. invert_chunks.
    repeat match goal with
    | H : chunk_ok _ _ |- _ => destruct H as (? & ? & ?)
    end. simpl in *.
    do 6 eexists. repeat split; eauto.
  - intros (a & b & c & d & p & t & Ha & Hb & Hc & Hd & Hp & Ht & ->).
    unfold Url.quad, Url.port, Url.token in *.
    cbn. repeat apply Forall2_cons; try apply Forall2_nil;
      try apply lit_chunk_ok;
      unfold chunk_ok, plus, digits; cbn [cls lo hi]; intuition lia.
Qed.


Ltac flatten :=
  repeat (progress (rewrite ?app_assoc; cbn [append])).

Lemma text_glue a b c d p t :
  Url.text (Url.dotted a b c d) p t = glue a b c d p t.
Proof. unfold Url.text, Url.dotted, glue. flatten. reflexivity. Qed.

Lemma glue_app a b c d p x y : glue a b c d p x ++ y = glue a b c d p (x ++ y).
Proof. unfold glue. flatten. reflexivity. Qed.



Lemma flat_head_pieces a b c d p x :
  flat (head_pieces a b c d p) ++ x = glue a b c d p x.
Proof. unfold head_pieces, glue. cbn. flatten. reflexivity. Qed.

Lemma head_chunks g cs :
  Forall2 chunk_ok (head_atoms g) cs ->
  exists a b c d p,
    Url.quad a /\ Url.quad b /\ Url.quad c /\ Url.quad d /\
    Url.port p /\ cs = head_pieces a b c d p.
Proof.
  intros H. cbn in H. invert_chunks.
  repeat match goal with
  | H : chunk_ok _ _ |- _ => destruct H as (? & ? & ?)
  end. simpl in *.
  do 5 eexists. repeat split; eauto.
Qed.

Lemma digit_run a x a' x' (e e' : ascii) :
  a ++ String e x = a' ++ String e' x' ->
  Str.all Str.is_digit a = true -> Str.all Str.is_digit a' = true ->
  Str.is_digit e = false -> Str.is_digit e' = false ->
  a = a' /\ e = e' /\ x = x'.
Proof.
  intros E Ha Ha' He He'.
  destruct (run_unique Str.is_digit a (String e x) a' (String e' x') E Ha Ha' He He')
    as [-> H].
  injection H as -> ->. auto.
Qed.

Lemma glue_inj a b c d p x a' b' c' d' p' x' :
  glue a b c d p x = glue a' b' c' d' p' x' ->
  Url.quad a -> Url.quad b -> Url.quad c -> Url.quad d -> Url.port p ->
  Url.quad a' -> Url.quad b' -> Url.quad c' -> Url.quad d' -> Url.port p' ->
  a = a' /\ b = b' /\ c = c' /\ d = d' /\ p = p' /\ x = x'.
Proof.
  unfold glue. cbn [append].
  intros E [Ha _] [Hb _] [Hc _] [Hd _] [Hp _] [Ha' _] [Hb' _] [Hc' _] [Hd' _] [Hp' _].
  injection E as E.
  apply digit_run in E; auto. destruct E as (-> & _ & E).
  apply digit_run in E; auto. destruct E as (-> & _ & E).
  apply digit_run in E; auto. destruct E as (-> & _ & E).
  apply digit_run in E; auto. destruct E as (-> & _ & E).
  apply digit_run in E; auto. destruct E as (-> & _ & E).
  injection E as ->. auto 10.
Qed.

Lemma span_all p s : Str.all p s = true -> Str.span p s = (s, EmptyString).
Proof.
  induction s as [| c s IH]; simpl; [reflexivity |].
  intros H. apply andb_true_iff in H. destruct H as [-> H].
  rewrite (IH H). reflexivity.
Qed.

Lemma span_fst_all p s : Str.all p (fst (Str.span p s)) = true.
Proof.
  pose proof (span_app p s) as H. destruct (Str.span p s). simpl. tauto.
Qed.

Lemma span_eq p s : s = fst (Str.span p s) ++ snd (Str.span p s).
Proof.
  pose proof (span_app p s) as H. destruct (Str.span p s). simpl. tauto.
Qed.

(** [.*] at the end of a pattern takes what is left of the line. *)
Lemma match_dot_star s :
  match_atoms [dot_star] anywhere s
  = Some ([fst (Str.span Str.is_dot s)], snd (Str.span Str.is_dot s)).
Proof.
  change (match_atoms [dot_star] anywhere s)
    with (match rep Str.is_dot 0 None (match_atoms [] anywhere) s with
          | Some (chunk, (chunks, rest)) => Some (chunk :: chunks, rest)
          | None => None
          end).
  rewrite (rep_greedy _ Str.is_dot (match_atoms [] anywhere) s 0
             ([], snd (Str.span Str.is_dot s))); [reflexivity | lia | reflexivity].
Qed.

(** [\w+.*] at the end of a pattern: the longest run of word characters. *)
Lemma match_token_tail g s :
  match_atoms [plus g Str.is_word; dot_star] anywhere s =
  let t := fst (Str.span Str.is_word s) in
  let r := snd (Str.span Str.is_word s) in
  if Nat.leb 1 (String.length t)
  then Some ([t; fst (Str.span Str.is_dot r)], snd (Str.span Str.is_dot r))
  else None.
Proof.
  cbn zeta. change (match_atoms [plus g Str.is_word; dot_star] anywhere s)
    with (match rep Str.is_word 1 None (match_atoms [dot_star] anywhere) s with
          | Some (chunk, (chunks, rest)) => Some (chunk :: chunks, rest)
          | None => None
          end).
  destruct (Nat.leb 1 (String.length (fst (Str.span Str.is_word s)))) eqn:E.
  - apply Nat.leb_le in E.
    rewrite (rep_greedy _ Str.is_word (match_atoms [dot_star] anywhere) s 1 _ E
               (match_dot_star _)). reflexivity.
  - apply Nat.leb_gt in E. rewrite rep_short by exact E. reflexivity.
Qed.

Lemma search_atoms_split :
  atoms url_search_pattern
  = ([dot_star] ++ head_atoms (Some 1)
     ++ [plus (Some 1) Str.is_word; dot_star])%list.
Proof. reflexivity. Qed.

(** The shape of a match of the search pattern. *)
Lemma search_shape s m :
  re_match url_search_pattern s = Some m ->
  exists x0 a b c d p mid,
    Url.quad a /\ Url.quad b /\ Url.quad c /\ Url.quad d /\ Url.port p /\
    s = x0 ++ glue a b c d p mid /\
    1 <= String.length (fst (Str.span Str.is_word mid)) /\
    group 1 (atoms url_search_pattern) m
    = glue a b c d p (fst (Str.span Str.is_word mid)).
Proof.
  unfold re_match. rewrite search_atoms_split.
  change (fin url_search_pattern) with anywhere.
  destruct (match_atoms _ anywhere s) as [[cs rest] |] eqn:E; [| discriminate].
  intros [= <-].
  apply match_atoms_split in E.
  destruct E as (c0 & c2 & mid0 & -> & HF0 & -> & E).
  apply match_atoms_split in E.
  destruct E as (c1 & c3 & mid & -> & HF1 & -> & E).
  rewrite match_token_tail in E. cbn zeta in E.
  destruct (Nat.leb 1 _) eqn:Et in E; [| discriminate].
  apply Nat.leb_le in Et. injection E as <- <-.
  inversion HF0 as [| ? x0 ? ? _ HF0']; subst. inversion HF0'; subst.
  destruct (head_chunks _ _ HF1) as (a & b & c & d & p & Ha & Hb & Hc & Hd & Hp & ->).
  exists x0, a, b, c, d, p, mid.
  repeat (split; [assumption |]). split; [| split; [exact Et |]].
  - cbn [flat fold_right]. rewrite app_nil_r, flat_head_pieces. reflexivity.
  - unfold glue, head_pieces. cbn. flatten. rewrite app_nil_r. reflexivity.
Qed.

Lemma re_search_here p s m : re_match p s = Some m -> re_search p s = Some m.
Proof. intros H. destruct s; simpl; rewrite H; reflexivity. Qed.

Lemma glue_not_empty a b c d p x : glue a b c d p x <> EmptyString.
Proof. discriminate. Qed.

Lemma glue_has_token a b c d p x pre :
  Str.contains "token" (pre ++ glue a b c d p x) = true.
Proof.
  replace (pre ++ glue a b c d p x)
    with ((pre ++ "http://" ++ a ++ "." ++ b ++ "." ++ c ++ "." ++ d ++ ":"
           ++ p ++ "/?") ++ "token" ++ ("=" ++ x)).
  - apply contains_app.
  - unfold glue. flatten. reflexivity.
Qed.

(** What [find_url] returns: nothing, or a URL of the grammar that is in
    the text, with the longest token there. *)
Lemma find_url_cases s :
  find_url s = EmptyString \/
  exists pre a b c d p mid,
    Url.quad a /\ Url.quad b /\ Url.quad c /\ Url.quad d /\ Url.port p /\
    s = pre ++ glue a b c d p mid /\
    1 <= String.length (fst (Str.span Str.is_word mid)) /\
    find_url s = glue a b c d p (fst (Str.span Str.is_word mid)).
Proof.
  unfold find_url. destruct (negb (Str.contains "token" s)); [left; reflexivity |].
  destruct (re_search url_search_pattern s) as [m |] eqn:E; [| left; reflexivity].
  right. apply re_search_sound in E. destruct E as (pre & s' & -> & E).
  apply search_shape in E.
  destruct E as (x0 & a & b & c & d & p & mid & Ha & Hb & Hc & Hd & Hp & -> & Ht & Hg).
  exists (pre ++ x0), a, b, c, d, p, mid.
  repeat (split; [assumption |]). split; [| split; [exact Ht | exact Hg]].
  rewrite app_assoc. reflexivity.
Qed.

Lemma token_span mid :
  1 <= String.length (fst (Str.span Str.is_word mid)) ->
  Url.token (fst (Str.span Str.is_word mid)).
Proof. intros H. split; [apply span_fst_all | exact H]. Qed.

Lemma well_formed_glue a b c d p t :
  Url.quad a -> Url.quad b -> Url.quad c -> Url.quad d -> Url.port p ->
  Url.token t -> Url.well_formed (glue a b c d p t).
Proof.
  intros Ha Hb Hc Hd Hp Ht.
  exists (Url.dotted a b c d), p, t.
  split; [exists a, b, c, d; auto |]. rewrite text_glue. auto.
Qed.

Lemma well_formed_inv u :
  Url.well_formed u ->
  exists a b c d p t,
    Url.quad a /\ Url.quad b /\ Url.quad c /\ Url.quad d /\ Url.port p /\
    Url.token t /\ u = glue a b c d p t.
Proof.
  intros (h & p & t & (a & b & c & d & Ha & Hb & Hc & Hd & ->) & Hp & Ht & ->).
  exists a, b, c, d, p, t. rewrite text_glue. auto 10.
Qed.

Lemma find_url_sound s :
  find_url s <> EmptyString ->
  Url.well_formed (find_url s) /\ Url.occurs_in (find_url s) s.
Proof.
  intros Hne. destruct (find_url_cases s) as [H | H]; [congruence |].
  destruct H as (pre & a & b & c & d & p & mid & Ha & Hb & Hc & Hd & Hp & Hs & Ht & ->).
  split.
  - apply well_formed_glue; auto using token_span.
  - exists pre, (snd (Str.span Str.is_word mid)).
    rewrite glue_app, <- span_eq. exact Hs.
Qed.

Lemma match_accepts a b c d p t post :
  Url.quad a -> Url.quad b -> Url.quad c -> Url.quad d -> Url.port p ->
  Url.token t ->
  re_match url_search_pattern (glue a b c d p t ++ post) <> None.
Proof.
  intros Ha Hb Hc Hd Hp Ht.
  pose proof (re_match_complete url_search_pattern
    ([EmptyString] ++ pieces a b c d p t ++ [EmptyString])%list post) as H.
  replace (flat ([EmptyString] ++ pieces a b c d p t ++ [EmptyString])%list ++ post)
    with (glue a b c d p t ++ post) in H.
  - apply H; [| reflexivity].
    change (atoms url_search_pattern)
      with ([dot_star] ++ url_atoms (Some 1) (Some 1) (Some 1) (Some 1) (Some 1) (Some 1)
            ++ [dot_star])%list.
    apply Forall2_app; [repeat constructor |].
    apply Forall2_app; [| repeat constructor].
    apply url_chunks. exists a, b, c, d, p, t. auto 10.
  - rewrite !flat_app, flat_pieces, text_glue. cbn [flat fold_right append].
    rewrite !app_nil_r. reflexivity.
Qed.

Lemma search_accepts pre a b c d p t post :
  Url.quad a -> Url.quad b -> Url.quad c -> Url.quad d -> Url.port p ->
  Url.token t ->
  re_search url_search_pattern (pre ++ glue a b c d p t ++ post) <> None.
Proof.
  intros Ha Hb Hc Hd Hp Ht. apply re_search_complete, match_accepts; assumption.
Qed.

Lemma find_url_complete s : Url.present_in s -> find_url s <> EmptyString.
Proof.
  intros (u & Hu & pre & post & ->).
  apply well_formed_inv in Hu.
  destruct Hu as (a & b & c & d & p & t & Ha & Hb & Hc & Hd & Hp & Ht & ->).
  pose proof (search_accepts pre a b c d p t post Ha Hb Hc Hd Hp Ht) as Hs.
  destruct (find_url_cases (pre ++ glue a b c d p t ++ post)) as [H | H].
  - unfold find_url in H.
    rewrite glue_app, glue_has_token in H. cbn [negb] in H.
    rewrite <- glue_app in H.
    destruct (re_search url_search_pattern _) as [m |] eqn:E; [| congruence].
    apply re_search_sound in E. destruct E as (pre' & s' & _ & E).
    apply search_shape in E.
    destruct E as (? & ? & ? & ? & ? & ? & ? & _ & _ & _ & _ & _ & _ & _ & Hg).
    rewrite Hg in H. discriminate.
  - destruct H as (? & ? & ? & ? & ? & ? & ? & _ & _ & _ & _ & _ & _ & _ & ->).
    discriminate.
Qed.

(** The anchored pattern on a URL of the grammar: the three fields. *)
Lemma eol_not_word rest :
  eol rest = true ->
  match rest with String c _ => Str.is_word c = false | EmptyString => True end.
Proof.
  destruct rest as [| c [| ? ?]]; simpl; try discriminate; auto.
  intros H. apply Nat.eqb_eq in H. unfold Str.is_word, Str.between.
  rewrite H. reflexivity.
Qed.

Lemma url_fields_glue a b c d p t :
  Url.quad a -> Url.quad b -> Url.quad c -> Url.quad d -> Url.port p ->
  Url.token t ->
  url_fields (glue a b c d p t) = Some (Url.dotted a b c d, p, t).
Proof.
  intros Ha Hb Hc Hd Hp Ht. unfold url_fields.
  assert (HF : Forall2 chunk_ok (atoms url_pattern) (pieces a b c d p t)).
  { apply url_chunks. exists a, b, c, d, p, t. auto 10. }
  pose proof (re_match_complete url_pattern _ EmptyString HF eq_refl) as Hc0.
  rewrite app_nil_r, flat_pieces, text_glue in Hc0.
  destruct (re_match url_pattern (glue a b c d p t)) as [m |] eqn:E;
    [| congruence].
  apply re_match_sound in E. destruct E as (rest & HF' & E & Hr).
  apply url_chunks in HF'.
  destruct HF' as (a' & b' & c' & d' & p' & t' & Ha' & Hb' & Hc' & Hd' & Hp' & Ht' & ->).
  rewrite flat_pieces, text_glue, glue_app in E.
  apply glue_inj in E; auto.
  destruct E as (<- & <- & <- & <- & <- & E).
  assert (Et : t = t').
  { rewrite <- (app_nil_r t) in E.
    destruct (run_unique Str.is_word t EmptyString t' rest E) as [Et _];
      [apply Ht | apply Ht' | exact I | apply eol_not_word, Hr | exact Et]. }
  subst t'. unfold pieces, Url.dotted. cbn. flatten.
  rewrite !app_nil_r. reflexivity.
Qed.

Lemma url_fields_well_formed u :
  Url.well_formed u -> url_fields u <> None.
Proof.
  intros H. apply well_formed_inv in H.
  destruct H as (a & b & c & d & p & t & Ha & Hb & Hc & Hd & Hp & Ht & ->).
  rewrite url_fields_glue by assumption. discriminate.
Qed.

(** A text that is exactly a URL of the grammar is what [find_url]
    returns: the slashes of the text leave no room before the scheme. *)

Lemma count_app c a b : Str.count c (a ++ b) = Str.count c a + Str.count c b.
Proof. induction a as [| d a IH]; simpl; [reflexivity |]. rewrite IH. lia. Qed.

Lemma count_all c p s :
  Str.all p s = true -> p c = false -> Str.count c s = 0.
Proof.
  intros Hs Hc. induction s as [| d s IH]; [reflexivity |].
  simpl in *. apply andb_true_iff in Hs. destruct Hs as [Hd Hs].
  rewrite (IH Hs). destruct (Ascii.eqb_spec d c); [congruence | reflexivity].
Qed.

Lemma count_none c s :
  Str.count c s = 0 -> Str.all (fun d => negb (Ascii.eqb d c)) s = true.
Proof.
  induction s as [| d s IH]; [reflexivity |].
  simpl. destruct (Ascii.eqb d c); simpl; [discriminate | exact IH].
Qed.

Lemma count_glue a b c d p x :
  Url.quad a -> Url.quad b -> Url.quad c -> Url.quad d -> Url.port p ->
  Str.count "/" (glue a b c d p x) = 3 + Str.count "/" x.
Proof.
  intros [Ha _] [Hb _] [Hc _] [Hd _] [Hp _]. unfold glue.
  repeat (rewrite ?count_app; cbn [append Str.count Ascii.eqb Bool.eqb]).
  rewrite (count_all "/" _ a Ha), (count_all "/" _ b Hb),
    (count_all "/" _ c Hc), (count_all "/" _ d Hd), (count_all "/" _ p Hp);
    reflexivity.
Qed.

Lemma find_url_exact a b c d p t :
  Url.quad a -> Url.quad b -> Url.quad c -> Url.quad d -> Url.port p ->
  Url.token t ->
  find_url (glue a b c d p t) = glue a b c d p t.
Proof.
  intros Ha Hb Hc Hd Hp Ht.
  pose proof (match_accepts a b c d p t EmptyString Ha Hb Hc Hd Hp Ht) as Hm.
  rewrite app_nil_r in Hm.
  pose proof (glue_has_token a b c d p t EmptyString) as Htok.
  cbn [append] in Htok.
  unfold find_url. rewrite Htok. cbn [negb].
  destruct (re_match url_search_pattern (glue a b c d p t)) as [m |] eqn:E;
    [| congruence].
  rewrite (re_search_here _ _ _ E).
  apply search_shape in E.
  destruct E as (x0 & a' & b' & c' & d' & p' & mid
                 & Ha' & Hb' & Hc' & Hd' & Hp' & E & Hl & ->).
  assert (Hx0 : x0 = EmptyString).
  { pose proof (f_equal (Str.count "/") E) as Hcount.
    rewrite count_app, !count_glue in Hcount by assumption.
    rewrite (count_all "/" _ t (proj1 Ht) eq_refl) in Hcount.
    assert (H0 : Str.count "/" x0 = 0) by lia.
    apply count_none in H0.
    assert (Hcut : "http:" ++ String "/" (String "/" (a ++ "." ++ b ++ "." ++ c ++ "." ++ d ++ ":" ++ p ++ "/?token=" ++ t))
                   = (x0 ++ "http:") ++ String "/" (String "/" (a' ++ "." ++ b' ++ "." ++ c' ++ "." ++ d' ++ ":" ++ p' ++ "/?token=" ++ mid))).
    { rewrite app_assoc. exact E. }
    apply (run_unique (fun e => negb (Ascii.eqb e "/"))) in Hcut;
      [| reflexivity | rewrite all_app, H0; reflexivity
       | reflexivity | reflexivity].
    destruct Hcut as [Hcut _].
    apply (f_equal String.length) in Hcut. rewrite length_app in Hcut.
    simpl in Hcut. apply length_zero. lia. }
  subst x0. cbn [append] in E.
  apply glue_inj in E; auto.
  destruct E as (<- & <- & <- & <- & <- & <-).
  rewrite (span_all _ _ (proj1 Ht)). reflexivity.
Qed.

(** A text has a URL of the grammar exactly when [find_url] finds one. *)
Lemma present_iff s : Url.present_in s <-> find_url s <> EmptyString.
Proof.
  split; [apply find_url_complete |].
  intros H. destruct (find_url_sound s H) as [Hw Ho].
  exists (find_url s). auto.
Qed.

Lemma absent_iff s : ~ Url.present_in s <-> find_url s = EmptyString.
Proof.
  rewrite present_iff. destruct (string_dec (find_url s) EmptyString); tauto.
Qed.

End UrlFacts.

(** ** The commands of the script *)

Module JobFacts.
Import Re StrFacts ReFacts UrlFacts.







End JobFacts.

Module RunFacts.
Import StrFacts.




Lemma bind_ok {A B} (m : M A) (k : A -> M B) st a st' :
  m st = (Ok a, st') -> bind m k st = k a st'.
Proof. intros H. unfold bind. rewrite H. reflexivity. Qed.

Lemma bind_raise {A B} (m : M A) (k : A -> M B) st e st' :
  m st = (Raise e, st') -> bind m k st = (Raise e, st').
Proof. intros H. unfold bind. rewrite H. reflexivity. Qed.

Lemma bind_timeout {A B} (m : M A) (k : A -> M B) st st' :
  m st = (Timeout, st') -> bind m k st = (Timeout, st').
Proof. intros H. unfold bind. rewrite H. reflexivity. Qed.

Lemma get_var_set w var d v st :
  lookup var (environ w) = Some v -> get_var w var d st = (Ok v, st).
Proof. intros H. unfold get_var. rewrite H. reflexivity. Qed.

Lemma get_var_unset w var st :
  lookup var (environ w) = None -> get_var w var None st = (Raise (missing var), st).
Proof. intros H. unfold get_var. rewrite H. reflexivity. Qed.

(** [run] in full. *)
Lemma run_eq w cmd_list local debug st :
  run w cmd_list local debug st =
  match lookup "CLUSTER" (environ w) with
  | None => (Raise (missing "CLUSTER"), st)
  | Some cluster =>
      let argv := wrapped cluster local cmd_list in
      if sigint w (tick st)
      then (Raise KeyboardInterrupt, State (ops st ++ [Run argv]) (out st))
      else
        let '(rc, o, e) := completed w (tick st) argv in
        (Ok (rc, Str.strip o, Str.strip e),
         State (ops st ++ [Run argv]) (out st ++ run_output debug argv rc e))
  end.
Proof.
  unfold run. destruct (lookup "CLUSTER" (environ w)) as [cluster |] eqn:E.
  - rewrite (bind_ok _ _ _ _ _ (get_var_set w _ _ _ st E)).
    unfold subprocess_run, perform, bind, wrapped, run_output, print,
      write, ret.
    cbn [ops out].
    destruct local; cbn [negb];
      (destruct (sigint w (tick st)); [reflexivity |]);
      match goal with
      | |- context [completed w ?t ?a] =>
          destruct (completed w t a) as [[rc o] e]
      end;
      destruct debug; destruct (rc =? 0)%Z; cbn [negb ops out];
      rewrite <- ?List.app_assoc, ?List.app_nil_r; reflexivity.
  - rewrite (bind_raise _ _ _ _ _ (get_var_unset w _ st E)). reflexivity.
Qed.


(** [run] is [Raw.run] for outputs that are valid UTF-8. *)
Lemma run_encoded w cmd_list local debug st :
  Raw.run w (Raw.encoded w) cmd_list local debug st
  = run w cmd_list local debug st.
Proof.
  unfold Raw.run, run, Raw.subprocess_run, subprocess_run, Raw.encoded,
    bind, perform, ret.
  destruct (get_var w "CLUSTER" None st) as [[cluster | e |] st1];
    try reflexivity.
  destruct (sigint w (tick st1)); [reflexivity |].
  destruct (completed w (tick st1) _) as [[rc o] e].
  destruct debug; destruct (rc =? 0)%Z; reflexivity.
Qed.

End RunFacts.

(** ** What the functions of the script add to a run *)

Module Rules.
Import RunFacts Trace.

Lemma tick_app st l st' :
  ops st' = (ops st ++ l)%list -> tick st' = tick st + List.length l.
Proof. unfold tick. intros ->. apply List.length_app. Qed.

Lemma spec_conseq {A} (m : M A) (Q Q' : post A) :
  spec m Q -> (forall t r l, Q t r l -> Q' t r l) -> spec m Q'.
Proof.
  intros H HQ st. destruct (H st) as (l & E & Hl). exists l. auto.
Qed.

Lemma spec_bind {A B} (m : M A) (k : A -> M B) Q1 Q2 :
  spec m Q1 ->
  (forall a, (exists t l, Q1 t (Ok a) l) -> spec (k a) (Q2 a)) ->
  spec (bind m k) (seq Q1 Q2).
Proof.
  intros Hm Hk st. destruct (Hm st) as (l1 & E1 & H1).
  unfold bind. destruct (m st) as [[a | e |] st1]; cbn [fst snd] in *.
  - destruct (Hk a (ex_intro _ _ (ex_intro _ _ H1)) st1) as (l2 & E2 & H2).
    exists (l1 ++ l2)%list. split.
    + rewrite E2, E1, List.app_assoc. reflexivity.
    + left. exists a, l1, l2. rewrite <- (tick_app _ _ _ E1).
      split; [reflexivity | split; assumption].
  - exists l1. split; [exact E1 |]. right. left. eauto.
  - exists l1. split; [exact E1 |]. right. right. auto.
Qed.

Lemma spec_bind' {A B} (m : M A) (k : A -> M B) Q1 Q2 (Q : post B) :
  spec m Q1 ->
  (forall a, (exists t l, Q1 t (Ok a) l) -> spec (k a) (Q2 a)) ->
  (forall t r l, seq Q1 Q2 t r l -> Q t r l) ->
  spec (bind m k) Q.
Proof. intros Hm Hk HQ. eapply spec_conseq; [apply spec_bind; eauto | exact HQ]. Qed.

(** The leaves, by computation. *)
Ltac leaf :=
  intros st; eexists; split;
  [ cbn [ops out fst snd]; first [reflexivity | symmetry; apply List.app_nil_r]
  | cbn [fst snd]; unfold one, many, quiet, ordinary; cbn; auto ].

Lemma spec_get_var w var d : spec (get_var w var d) quiet.
Proof.
  intros st. exists []. rewrite List.app_nil_r. unfold get_var.
  destruct (lookup var (environ w)); [split; [reflexivity | split; [reflexivity | exact I]] |].
  destruct (truthy d); [destruct d |]; (split; [reflexivity | split; [reflexivity | exact I]]).
Qed.

Lemma spec_print s : spec (print s) quiet.
Proof.
  intros st. exists []. rewrite List.app_nil_r.
  split; [reflexivity | split; [reflexivity | exact I]].
Qed.

Lemma spec_write s : spec (write s) quiet.
Proof.
  intros st. exists []. rewrite List.app_nil_r.
  split; [reflexivity | split; [reflexivity | exact I]].
Qed.

(** An operation: recorded, and interrupted or not. *)
Lemma spec_perform w o :
  spec (perform w o)
    (fun t r l => l = [o] /\
       if sigint w t then r = Raise KeyboardInterrupt else r = Ok t).
Proof.
  intros st. exists [o]. unfold perform.
  destruct (sigint w (tick st)) eqn:E; cbn [fst snd ops];
    rewrite ?E; auto.
Qed.

Lemma runs_wrapped cluster c args :
  runs c (Run (wrapped cluster false (c :: args))) = true.
Proof. unfold runs, wrapped, command. apply String.eqb_refl. Qed.

(** [run] on a remote command: the command, at most once. *)
Lemma run_cases w c args debug st :
  exists l,
    ops (snd (run w (c :: args) false debug st)) = (ops st ++ l)%list /\
    ((l = [] /\ fst (run w (c :: args) false debug st) = Raise (missing "CLUSTER"))
     \/ exists o, l = [o] /\ runs c o = true /\
         (fst (run w (c :: args) false debug st) = Raise KeyboardInterrupt
          \/ exists rc outs err,
               fst (run w (c :: args) false debug st)
               = Ok (rc, Str.strip outs, Str.strip err))).
Proof.
  rewrite run_eq. destruct (lookup "CLUSTER" (environ w)) as [cluster |].
  - cbn zeta. destruct (sigint w (tick st)).
    + eexists. split; [reflexivity |]. right. eexists. split; [reflexivity |].
      split; [apply runs_wrapped | left; reflexivity].
    + destruct (completed w (tick st) _) as [[rc o] e].
      eexists. split; [reflexivity |]. right. eexists. split; [reflexivity |].
      split; [apply runs_wrapped | right; exists rc, o, e; reflexivity].
  - exists []. rewrite List.app_nil_r. auto.
Qed.

Lemma spec_run w c args debug :
  spec (run w (c :: args) false debug) (one (runs c)).
Proof.
  intros st. destruct (run_cases w c args debug st) as (l & E & H).
  exists l. split; [exact E |]. unfold one.
  destruct H as [[-> ->] | (o & -> & Ho & [-> | (rc & outs & err & ->)])];
    (split; [eauto | exact I]).
Qed.

Lemma spec_ret {A} (a : A) : spec (ret a) quiet.
Proof.
  intros st. exists []. rewrite List.app_nil_r.
  split; [reflexivity | split; [reflexivity | exact I]].
Qed.

Lemma spec_raise {A} (e : exn) :
  ordinary (@Raise A e) -> spec (@raise A e) quiet.
Proof.
  intros He st. exists []. rewrite List.app_nil_r.
  split; [reflexivity | split; [reflexivity | exact He]].
Qed.

(** Taking a composed post-condition apart. *)
Ltac post_cases :=
  unfold seq, one, many, quiet in *;
  repeat match goal with
  | H : _ \/ _ |- _ => destruct H
  | H : exists _, _ |- _ => destruct H
  | H : _ /\ _ |- _ => destruct H
  end;
  subst; cbn [List.app forallb andb] in *;
  rewrite ?List.app_nil_r in *.

Ltac post_solve :=
  intros ? ? ? ?; post_cases;
  repeat split;
  first
    [ assumption | exact I | reflexivity
    | (left; reflexivity)
    | (right; eexists; split; [reflexivity | assumption])
    | (match goal with H : ?P _ = true |- _ => rewrite H; reflexivity end)
    | idtac ].

Lemma quiet_quiet {A B} (m : M A) (k : A -> M B) :
  spec m quiet -> (forall a, spec (k a) quiet) -> spec (bind m k) quiet.
Proof.
  intros Hm Hk.
  apply (spec_bind' m k quiet (fun _ => quiet));
    [exact Hm | intros a _; apply Hk | post_solve].
Qed.

Lemma quiet_one {A B} (m : M A) (k : A -> M B) P :
  spec m quiet -> (forall a, spec (k a) (one P)) -> spec (bind m k) (one P).
Proof.
  intros Hm Hk.
  apply (spec_bind' m k quiet (fun _ => one P));
    [exact Hm | intros a _; apply Hk | post_solve].
Qed.

Lemma one_quiet {A B} (m : M A) (k : A -> M B) P :
  spec m (one P) -> (forall a, spec (k a) quiet) -> spec (bind m k) (one P).
Proof.
  intros Hm Hk.
  apply (spec_bind' m k (one P) (fun _ => quiet));
    [exact Hm | intros a _; apply Hk | post_solve].
Qed.

Lemma one_many {A} (m : M A) P : spec m (one P) -> spec m (many P).
Proof.
  intros H. apply (spec_conseq _ _ _ H). post_solve.
Qed.

Lemma quiet_many {A} (m : M A) P : spec m quiet -> spec m (many P).
Proof.
  intros H. apply (spec_conseq _ _ _ H). post_solve.
Qed.

Lemma many_many {A B} (m : M A) (k : A -> M B) P :
  spec m (many P) -> (forall a, spec (k a) (many P)) ->
  spec (bind m k) (many P).
Proof.
  intros Hm Hk.
  apply (spec_bind' m k (many P) (fun _ => many P));
    [exact Hm | intros a _; apply Hk | post_solve].
  rewrite forallb_app. 
  match goal with H1 : forallb _ _ = true, H2 : forallb _ _ = true |- _ =>
    rewrite H1, H2 end. reflexivity.
Qed.

Lemma many_weaken {A} (m : M A) (P P' : op -> bool) :
  (forall o, P o = true -> P' o = true) -> spec m (many P) -> spec m (many P').
Proof.
  intros HP H. apply (spec_conseq _ _ _ H). intros t r l [Hl Hr].
  split; [| exact Hr]. rewrite forallb_forall in *. auto.
Qed.

Lemma spec_perform_many w o P :
  P o = true -> spec (perform w o) (many P).
Proof.
  intros Ho. apply (spec_conseq _ _ _ (spec_perform w o)).
  intros t r l [-> Hr]. split; [cbn; rewrite Ho; reflexivity |].
  destruct (sigint w t); subst r; exact I.
Qed.

Lemma spec_send_job_script w path :
  spec (send_job_script w path) (many is_setup).
Proof.
  unfold send_job_script. apply many_many; [apply quiet_many, spec_get_var |].
  intros cluster. apply many_many; [| intros; apply quiet_many, spec_ret].
  intros st. rewrite run_eq.
  destruct (lookup "CLUSTER" (environ w)) as [c |].
  - cbn zeta. unfold wrapped. destruct (sigint w (tick st)).
    + eexists. split; [reflexivity |]. split; [reflexivity | exact I].
    + destruct (completed w (tick st) _) as [[rc o] e].
      eexists. split; [reflexivity |]. split; [reflexivity | exact I].
  - exists []. rewrite List.app_nil_r. split; [reflexivity |].
    split; [reflexivity | exact I].
Qed.

Lemma spec_create_job_script w : spec (create_job_script w) (many is_setup).
Proof.
  unfold create_job_script.
  apply many_many; [apply spec_perform_many; reflexivity | intros _].
  apply many_many; [apply quiet_many, spec_get_var | intros venv].
  apply many_many; [apply quiet_many, spec_get_var | intros workdir].
  apply many_many; [apply spec_perform_many; reflexivity | intros _].
  apply many_many; [apply quiet_many, spec_print | intros _].
  apply quiet_many, spec_ret.
Qed.

Lemma spec_launch_job w name :
  spec (launch_job w name) (one (runs "sbatch")).
Proof.
  unfold launch_job. apply quiet_one; [apply spec_print | intros _].
  apply one_quiet; [apply spec_run | intros [[rc outs] err]].
  destruct (rc =? 0)%Z; [| apply spec_raise; exact I].
  apply quiet_quiet; [apply spec_print | intros _].
  destruct (Re.re_match Re.job_pattern outs);
    [apply spec_ret | apply spec_raise; exact I].
Qed.

Lemma spec_check_jobfailure w job :
  spec (check_jobfailure w job) (one (runs "sacct")).
Proof.
  unfold check_jobfailure.
  apply one_quiet; [apply spec_run | intros [[rc outs] err]].
  destruct (Str.contains "FAILED" outs); apply spec_ret.
Qed.

Lemma spec_get_node w job : spec (get_node w job) (one is_node_query).
Proof.
  unfold get_node.
  apply one_quiet; [apply spec_run | intros [[rc outs] err]].
  destruct (rc =? 0)%Z; [apply spec_ret | apply spec_raise; exact I].
Qed.

Lemma spec_delete_job w job : spec (delete_job w job) (one is_cancel).
Proof.
  unfold delete_job. apply quiet_one; [apply spec_print | intros _].
  apply one_quiet; [apply spec_run | intros [[rc outs] err]].
  destruct (rc =? 0)%Z; [apply spec_print | apply spec_raise; exact I].
Qed.

Lemma spec_get_jupyter_url w job : spec (get_jupyter_url w job) url_post.
Proof.
  unfold get_jupyter_url.
  apply (spec_bind' _ _ (one (runs "cat")) (fun _ => fun _ r l =>
           l = [] /\ exists outs, r = Ok (find_url outs))).
  - apply spec_run.
  - intros [[rc outs] err] _ st. exists []. rewrite List.app_nil_r.
    destruct (negb (rc =? 0)%Z); (split; [reflexivity |]);
      (split; [reflexivity | exists outs; reflexivity]).
  - intros t r l H. unfold url_post, is_query. post_cases.
    + split; [left; reflexivity | eauto].
    + split; [right; eexists; split; [reflexivity |] | eauto].
      match goal with H : runs "cat" _ = true |- _ => rewrite H end.
      reflexivity.
    + split; [left; reflexivity | assumption].
    + split; [right; eexists; split; [reflexivity |] | assumption].
      match goal with H : runs "cat" _ = true |- _ => rewrite H end.
      reflexivity.
    + split; [left; reflexivity | exact I].
    + split; [right; eexists; split; [reflexivity |] | exact I].
      match goal with H : runs "cat" _ = true |- _ => rewrite H end.
      reflexivity.
Qed.

Lemma ends_with_accounting_app l1 l2 :
  ends_with_accounting l2 -> ends_with_accounting (l1 ++ l2).
Proof.
  intros (l' & o & -> & Ho). exists (l1 ++ l')%list, o.
  rewrite List.app_assoc. auto.
Qed.

Lemma many_poll {A} (m : M A) (k : A -> M string) :
  spec m (many is_poll) -> (forall a, spec (k a) poll_post) ->
  spec (bind m k) poll_post.
Proof.
  intros Hm Hk.
  apply (spec_bind' m k (many is_poll) (fun _ => poll_post));
    [exact Hm | intros a _; apply Hk |].
  intros t r l [(a & l1 & l2 & -> & [H1 _] & [H2 Hr]) | [(e & -> & H1 & He) | (-> & H1 & _)]].
  - split; [rewrite forallb_app, H1, H2; reflexivity |].
    destruct r as [url | [] |]; auto.
    destruct Hr as [-> Hr]. split; [reflexivity |].
    apply ends_with_accounting_app, Hr.
  - split; [assumption |]. destruct e; auto; destruct He.
  - split; [assumption | exact I].
Qed.

Lemma is_query_poll o : is_query o = true -> is_poll o = true.
Proof. unfold is_poll. intros ->. apply orb_true_r. Qed.

Lemma sacct_poll o : runs "sacct" o = true -> is_poll o = true.
Proof.
  intros H. apply is_query_poll. unfold is_query. rewrite H.
  apply orb_true_r.
Qed.

(** The failure check: a verdict comes with the accounting query. *)
Lemma spec_failure_check w job :
  spec (check_jobfailure w job)
    (fun _ r l =>
       forallb is_poll l = true /\ ordinary r /\
       forall b, r = Ok b -> exists o, l = [o] /\ runs "sacct" o = true).
Proof.
  intros st.
  destruct (run_cases w "sacct" ["-j"; job; "-n"] false st) as (l & E & H).
  unfold check_jobfailure, bind.
  destruct (run w ("sacct" :: ["-j"; job; "-n"]) false false st)
    as [[[[rc outs] err] | e |] st1]; cbn [fst snd] in *.
  - destruct H as [[_ H] | (o & -> & Ho & _)]; [discriminate |].
    exists [o].
    destruct (Str.contains "FAILED" outs); cbn [ret fst snd];
      (split; [exact E |]);
      (split; [cbn; rewrite (sacct_poll _ Ho); reflexivity |]);
      (split; [exact I | intros b _; eauto]).
  - exists l. split; [exact E |].
    destruct H as [[-> H] | (o & -> & Ho & [H | (? & ? & ? & H)])];
      try discriminate; injection H as ->;
      (split; [cbn; rewrite ?(sacct_poll _ Ho); reflexivity |]);
      (split; [exact I | intros b Hb; discriminate]).
  - destruct H as [[_ H] | (o & _ & _ & [H | (? & ? & ? & H)])]; discriminate.
Qed.

Lemma spec_poll w job : forall fuel count,
  spec (poll w fuel job count) poll_post.
Proof.
  induction fuel as [| fuel IH]; intros count.
  - intros st. exists []. rewrite List.app_nil_r.
    split; [reflexivity | split; [reflexivity | exact I]].
  - cbn [poll].
    apply many_poll; [apply spec_perform_many; reflexivity | intros _].
    apply many_poll; [apply quiet_many, spec_write | intros _].
    apply many_poll;
      [destruct (Nat.even (S count));
       [apply quiet_many, spec_write | apply quiet_many, spec_ret] | intros _].
    apply (spec_bind' _ _ url_post (fun url => fun t r l =>
             (exists outs, url = find_url outs) /\ poll_post t r l)).
    + apply spec_get_jupyter_url.
    + intros url (t & l & _ & Hurl).
      apply (spec_conseq _ poll_post); [| intros; split; assumption].
      apply (spec_bind' _ _ _
               (fun (failed : bool) => fun t r l =>
                  if failed then l = [] /\ r = Raise (SystemExit 1)
                  else poll_post t r l)
               poll_post (spec_failure_check w job)).
      * intros failed _. destruct failed.
        -- intros st. exists []. rewrite List.app_nil_r.
           split; [reflexivity | split; reflexivity].
        -- destruct (Str.is_empty url) eqn:Eu; [apply IH |].
           intros st. exists []. rewrite List.app_nil_r.
           split; [reflexivity | split; [reflexivity |]].
           destruct Hurl as (outs & ->). cbn [fst ret].
           apply UrlFacts.find_url_sound. intros E. rewrite E in Eu. discriminate.
      * intros t0 r0 l0
          [(a & l1 & l2 & -> & (H1 & _ & Ho) & H2) | [(e & -> & H1 & He & _) | (-> & H1 & _)]].
        -- destruct (Ho a eq_refl) as (o & -> & Hs). destruct a.
           ++ destruct H2 as [-> ->]. split; [exact H1 |].
              split; [reflexivity |]. exists [], o. auto.
           ++ destruct H2 as [H2 Hr]. split.
              ** cbn. rewrite (sacct_poll _ Hs). exact H2.
              ** destruct r0 as [url0 | [] |]; auto.
                 destruct Hr as [-> Hr]. split; [reflexivity |].
                 apply (ends_with_accounting_app [o]), Hr.
        -- split; [assumption |]. destruct e; auto; destruct He.
        -- split; [assumption | exact I].
    + intros t r l
        [(a & l1 & l2 & -> & (H1 & _) & _ & H2 & Hr) | [(e & -> & H1 & He) | (-> & H1 & _)]].
      * split.
        -- destruct H1 as [-> | (o & -> & Ho)]; [exact H2 |].
           cbn. rewrite (is_query_poll _ Ho). exact H2.
        -- destruct r as [url0 | [] |]; auto.
           destruct Hr as [-> Hr]. split; [reflexivity |].
           apply ends_with_accounting_app, Hr.
      * split.
        -- destruct H1 as [-> | (o & -> & Ho)]; [reflexivity |].
           cbn. rewrite (is_query_poll _ Ho). reflexivity.
        -- destruct e; auto; destruct He.
      * split; [| exact I].
        destruct H1 as [-> | (o & -> & Ho)]; [reflexivity |].
        cbn. rewrite (is_query_poll _ Ho). reflexivity.
Qed.

(** With [CLUSTER] set a command is always executed. *)
Lemma spec_run_once w c args debug cluster :
  lookup "CLUSTER" (environ w) = Some cluster ->
  spec (run w (c :: args) false debug) (once (runs c)).
Proof.
  intros Ec st. rewrite run_eq, Ec. cbn zeta.
  destruct (sigint w (tick st)).
  - eexists. split; [reflexivity |]. split; [| exact I].
    eexists. split; [reflexivity | apply runs_wrapped].
  - destruct (completed w (tick st) _) as [[rc o] e].
    eexists. split; [reflexivity |]. split; [| exact I].
    eexists. split; [reflexivity | apply runs_wrapped].
Qed.

Lemma spec_perform_once w o P : P o = true -> spec (perform w o) (once P).
Proof.
  intros Ho. apply (spec_conseq _ _ _ (spec_perform w o)).
  intros t r l [-> Hr]. split; [eauto |].
  destruct (sigint w t); subst r; exact I.
Qed.

Lemma once_quiet {A B} (m : M A) (k : A -> M B) P :
  spec m (once P) -> (forall a, spec (k a) quiet) -> spec (bind m k) (once P).
Proof.
  intros Hm Hk.
  apply (spec_bind' m k (once P) (fun _ => quiet));
    [exact Hm | intros a _; apply Hk |].
  intros t r l H. unfold once in *. post_cases; (split; [eauto | assumption]).
Qed.

Lemma fine_print s : spec (print s) fine.
Proof.
  intros st. exists []. rewrite List.app_nil_r.
  split; [reflexivity | split; [reflexivity | exists tt; reflexivity]].
Qed.

Lemma fine_get_var w var d v :
  lookup var (environ w) = Some v -> spec (get_var w var d) fine.
Proof.
  intros E st. exists []. rewrite List.app_nil_r, (get_var_set w var d v st E).
  split; [reflexivity | split; [reflexivity | exists v; reflexivity]].
Qed.

Lemma fine_once {A B} (m : M A) (k : A -> M B) P :
  spec m fine -> (forall a, spec (k a) (once P)) -> spec (bind m k) (once P).
Proof.
  intros Hm Hk.
  apply (spec_bind' m k fine (fun _ => once P));
    [exact Hm | intros a _; apply Hk |].
  intros t r l H. unfold once, fine in *. post_cases;
    first [discriminate | split; [eauto | assumption]].
Qed.

Lemma spec_delete_job_once w job cluster :
  lookup "CLUSTER" (environ w) = Some cluster ->
  spec (delete_job w job) (once is_cancel).
Proof.
  intros Ec. unfold delete_job. apply fine_once; [apply fine_print | intros _].
  apply once_quiet; [apply (spec_run_once _ _ _ _ _ Ec) |].
  intros [[rc outs] err].
  destruct (rc =? 0)%Z; [apply spec_print | apply spec_raise; exact I].
Qed.

Lemma spec_get_node_once w job cluster :
  lookup "CLUSTER" (environ w) = Some cluster ->
  spec (get_node w job) (once is_node_query).
Proof.
  intros Ec. unfold get_node.
  apply once_quiet; [apply (spec_run_once _ _ _ _ _ Ec) |].
  intros [[rc outs] err].
  destruct (rc =? 0)%Z; [apply spec_ret | apply spec_raise; exact I].
Qed.

(** One more step in front of a tail. *)
Lemma once_tail {A} w (m : M A) (k : A -> M unit) p ps :
  2 <= List.length ps ->
  spec m (once p) -> (forall a, spec (k a) (tail_post w ps)) ->
  spec (bind m k) (tail_post w (p :: ps)).
Proof.
  intros Hps Hm Hk.
  apply (spec_bind' m k (once p) (fun _ => tail_post w ps));
    [exact Hm | intros a _; apply Hk |].
  intros t r l H. unfold once, tail_post in *. post_cases.
  - cbn [follows List.length].
    match goal with H : p _ = true |- _ => rewrite H end.
    split; [assumption | split; [| assumption]].
    match goal with H : _ <-> _ |- _ => destruct H as [Ha Hb] end.
    split.
    + intros E. injection E as E. destruct (Ha E) as [? Hs].
      split; [lia |]. rewrite <- Hs. f_equal. cbn [List.length]. lia.
    + intros [? Hs]. f_equal. apply Hb. split; [lia |].
      rewrite <- Hs. f_equal. cbn [List.length]. lia.
  - cbn [follows List.length].
    match goal with H : p _ = true |- _ => rewrite H end.
    split; [reflexivity | split; [| assumption]].
    split; [intros E; lia | intros [? _]; lia].
  - cbn [follows List.length].
    match goal with H : p _ = true |- _ => rewrite H end.
    split; [reflexivity | split; [| exact I]].
    split; [intros E; lia | intros [? _]; lia].
Qed.

Lemma fine_tail {A} w (m : M A) (k : A -> M unit) ps :
  spec m fine -> (forall a, spec (k a) (tail_post w ps)) ->
  spec (bind m k) (tail_post w ps).
Proof.
  intros Hm Hk.
  apply (spec_bind' m k fine (fun _ => tail_post w ps));
    [exact Hm | intros a _; apply Hk |].
  intros t r l H. unfold fine, tail_post in *. post_cases; try discriminate.
  rewrite Nat.add_0_r in *. auto.
Qed.

(** [try: ssh_t.wait()  except KeyboardInterrupt: delete_job(job_id)] *)
Lemma spec_wait w job cluster :
  lookup "CLUSTER" (environ w) = Some cluster ->
  spec (except_KeyboardInterrupt (perform w Wait ;; ret tt) (delete_job w job))
       (tail_post w [is_wait; is_cancel]).
Proof.
  intros Ec st. unfold except_KeyboardInterrupt, bind, perform, ret.
  destruct (sigint w (tick st)) eqn:E.
  - destruct (spec_delete_job_once w job cluster Ec
                (State (ops st ++ [Wait]) (out st)))
      as (l & El & (o & -> & Ho) & Hr).
    exists [Wait; o]. cbn [ops] in El. rewrite El, <- List.app_assoc.
    split; [reflexivity |]. unfold tail_post. cbn [follows List.length is_wait andb].
    rewrite Ho. split; [reflexivity | split; [| exact Hr]].
    cbn. rewrite Nat.add_0_r. split; [intros _; split; [lia | exact E] | reflexivity].
  - exists [Wait]. split; [reflexivity |]. unfold tail_post. cbn.
    split; [reflexivity | split; [| exact I]].
    rewrite Nat.add_0_r. split; [discriminate | intros [_ H]; congruence].
Qed.

Lemma spec_connect w job url :
  Url.well_formed url -> spec (connect w job url) (connect_post w).
Proof.
  intros Hu. unfold connect.
  destruct (url_fields url) as [[[h port] token] |] eqn:Ef;
    [| exfalso; revert Ef; apply UrlFacts.url_fields_well_formed, Hu].
  destruct (lookup "CLUSTER" (environ w)) as [cluster |] eqn:Ec.
  - unfold connect_post, after_ready.
    apply once_tail; [cbn; lia | apply (spec_get_node_once _ _ _ Ec) | intros ip].
    apply fine_tail; [apply fine_print | intros _].
    apply fine_tail; [apply fine_print | intros _].
    apply fine_tail; [apply (fine_get_var _ _ _ _ Ec) | intros c].
    apply once_tail; [cbn; lia | apply spec_perform_once; reflexivity | intros _].
    apply once_tail; [cbn; lia | apply spec_perform_once; reflexivity | intros _].
    apply (spec_wait _ _ _ Ec).
  - intros st. exists []. rewrite List.app_nil_r.
    assert (E : get_node w job st = (Raise (missing "CLUSTER"), st)).
    { unfold get_node. apply bind_raise. rewrite run_eq, Ec. reflexivity. }
    rewrite (bind_raise _ _ _ _ _ E).
    split; [reflexivity |]. unfold connect_post, tail_post. cbn.
    split; [reflexivity | split; [| exact I]].
    split; [discriminate | intros [? _]; lia].
Qed.

Lemma main_post_setup w t (r : outcome unit) l :
  forallb is_setup l = true -> ordinary r -> r <> Ok tt -> main_post w t r l.
Proof.
  intros Hl Hr Hne. exists l, [], []. rewrite List.app_nil_r.
  split; [reflexivity |]. split; [exact Hl |]. split; [reflexivity |].
  split; [reflexivity |]. split.
  - cbn. split; [discriminate | intros [? _]; lia].
  - destruct r as [[] | [] |]; try exact I; try contradiction.
Qed.

Lemma main_post_poll w t (r : outcome unit) l :
  forallb is_poll l = true ->
  match r with
  | Ok _ => False
  | Raise (SystemExit s) => s = 1%Z /\ ends_with_accounting l
  | Raise (UnboundLocalError _) => False
  | _ => True
  end ->
  main_post w t r l.
Proof.
  intros Hl Hr. exists [], l, []. rewrite List.app_nil_r.
  split; [reflexivity |]. split; [reflexivity |]. split; [exact Hl |].
  split; [reflexivity |]. split.
  - cbn. split; [discriminate | intros [? _]; lia].
  - destruct r as [[] | [] |]; try exact I; try contradiction.
    destruct Hr as [-> Hr]. auto.
Qed.

Lemma setup_main {A} w (m : M A) (k : A -> M unit) :
  spec m (many is_setup) -> (forall a, spec (k a) (main_post w)) ->
  spec (bind m k) (main_post w).
Proof.
  intros Hm Hk.
  apply (spec_bind' m k (many is_setup) (fun _ => main_post w));
    [exact Hm | intros a _; apply Hk |].
  intros t r l [(a & l1 & l2 & -> & [H1 _] & H2) | [(e & -> & H1 & He) | (-> & H1 & _)]].
  - destruct H2 as (l0 & lp & lc & -> & H0 & Hp & Hf & Hi & Hr).
    exists (l1 ++ l0)%list, lp, lc. rewrite <- List.app_assoc.
    split; [reflexivity |]. rewrite forallb_app, H1, H0.
    split; [reflexivity |]. split; [exact Hp |]. split; [exact Hf |].
    split; [| exact Hr].
    replace (t + List.length (l1 ++ l0)%list)
      with (t + List.length l1 + List.length l0)
      by (rewrite List.length_app; lia).
    exact Hi.
  - apply main_post_setup; [assumption | assumption | discriminate].
  - apply main_post_setup; [assumption | exact I | discriminate].
Qed.

Lemma spec_poll_connect w fuel job :
  spec (bind (poll w fuel job 0) (connect w job)) (main_post w).
Proof.
  apply (spec_bind' _ _ poll_post (fun _ => connect_post w)).
  - apply spec_poll.
  - intros url (t & l & _ & Hu). apply spec_connect, Hu.
  - intros t r l [(a & l1 & l2 & -> & [H1 _] & H2) | [(e & -> & H1 & He) | (-> & H1 & _)]].
    + destruct H2 as (Hf & Hi & Hr). exists [], l1, l2.
      split; [reflexivity |]. split; [reflexivity |]. split; [exact H1 |].
      split; [exact Hf |]. split.
      { cbn [List.length after_ready Nat.sub] in Hi. cbn [List.length].
        rewrite Nat.add_0_r. exact Hi. }
      destruct r as [[] | [] |]; try exact I; contradiction.
    + apply main_post_poll; [assumption |]. destruct e; auto.
    + apply main_post_poll; [assumption | exact I].
Qed.

(** Every run of [main]. *)
Lemma spec_main w fuel : spec (main w fuel) (main_post w).
Proof.
  unfold main.
  apply setup_main; [apply spec_create_job_script | intros path].
  apply setup_main; [apply spec_send_job_script | intros _].
  apply setup_main.
  { apply (many_weaken _ (runs "sbatch")).
    - intros o Ho. unfold is_setup. destruct o; try discriminate.
      rewrite Ho. apply orb_true_r.
    - apply one_many, spec_launch_job. }
  intros job.
  apply setup_main; [apply quiet_many, spec_print | intros _].
  apply spec_poll_connect.
Qed.

End Rules.

(** ** Runs without interrupts, step by step *)

Module Steps.
Import StrFacts RunFacts.



Lemma perform_interrupted w o st :
  sigint w (tick st) = true ->
  perform w o st = (Raise KeyboardInterrupt, State (ops st ++ [o]) (out st)).
Proof. intros H. unfold perform. rewrite H. reflexivity. Qed.


Lemma run_unset w cmd_list local debug st :
  lookup "CLUSTER" (environ w) = None ->
  run w cmd_list local debug st = (Raise (missing "CLUSTER"), st).
Proof. intros Ec. rewrite run_eq, Ec. reflexivity. Qed.




End Steps.

(** ** Kinds of operations *)

Module TraceFacts.
Import Trace.

Lemma runs_excl a b o : runs a o = true -> a <> b -> runs b o = false.
Proof.
  destruct o; try discriminate. unfold runs. intros H Hab.
  apply String.eqb_eq in H. rewrite H. apply String.eqb_neq. exact Hab.
Qed.

Lemma setup_early o : is_setup o = true -> early o.
Proof.
  unfold is_setup, early, is_node_query, is_cancel.
  destruct o; try discriminate; try (intros _; repeat split; reflexivity).
  intros H. apply orb_true_iff in H.
  destruct H as [H | H];
    (split; [| split]);
    first [ reflexivity | apply (runs_excl _ _ _ H); discriminate ].
Qed.

Lemma poll_early o : is_poll o = true -> early o.
Proof.
  unfold is_poll, is_query, early, is_node_query, is_cancel.
  destruct o; try discriminate; try (intros _; repeat split; reflexivity).
  cbn [is_sleep orb]. intros H. apply orb_true_iff in H.
  destruct H as [H | H];
    (split; [| split]);
    first [ reflexivity | apply (runs_excl _ _ _ H); discriminate ].
Qed.

Lemma node_late o : is_node_query o = true -> late o /\ is_cancel o = false /\ is_wait o = false.
Proof.
  unfold late, is_query, is_node_query, is_cancel. intros H.
  rewrite (runs_excl _ "cat" _ H), (runs_excl _ "sacct" _ H),
    (runs_excl _ "scancel" _ H) by discriminate.
  destruct o; try discriminate. auto.
Qed.

Lemma cancel_late o : is_cancel o = true -> late o /\ is_wait o = false.
Proof.
  unfold late, is_query, is_cancel. intros H.
  rewrite (runs_excl _ "cat" _ H), (runs_excl _ "sacct" _ H) by discriminate.
  destruct o; try discriminate. auto.
Qed.

Lemma popen_late o : is_popen o = true -> late o /\ is_cancel o = false /\ is_wait o = false.
Proof. destruct o; try discriminate. intros _. repeat split. Qed.

Lemma browser_late o : is_browser o = true -> late o /\ is_cancel o = false /\ is_wait o = false.
Proof. destruct o; try discriminate. intros _. repeat split. Qed.

Lemma wait_late o : is_wait o = true -> late o /\ is_cancel o = false.
Proof. destruct o; try discriminate. intros _. repeat split. Qed.

Lemma count_ops_app P a b : count P (a ++ b) = count P a + count P b.
Proof. unfold count. rewrite filter_app, List.length_app. reflexivity. Qed.

Lemma wait_interrupted_app w a : forall t b,
  wait_interrupted w t (a ++ b)
  = wait_interrupted w t a || wait_interrupted w (t + List.length a) b.
Proof.
  induction a as [| o a IH]; intros t b; cbn [List.app wait_interrupted List.length].
  - rewrite Nat.add_0_r. reflexivity.
  - rewrite IH, orb_assoc. do 2 f_equal. lia.
Qed.

Lemma early_quiet w l :
  Forall early l ->
  count is_cancel l = 0 /\ count is_wait l = 0
  /\ existsb is_node_query l = false /\ existsb is_cancel l = false
  /\ forall t, wait_interrupted w t l = false.
Proof.
  induction 1 as [| o l (Hn & Hc & Hw) _ (IH1 & IH2 & IH3 & IH4 & IH5)].
  - repeat split.
  - unfold count in *. cbn [filter existsb wait_interrupted].
    rewrite Hn, Hc, Hw, IH3, IH4. cbn [orb andb].
    repeat split; try assumption. intros t. apply IH5.
Qed.

Lemma forallb_Forall (P : op -> bool) (Q : op -> Prop) l :
  (forall o, P o = true -> Q o) -> forallb P l = true -> Forall Q l.
Proof.
  intros H Hl. apply Forall_forall. intros o Ho.
  rewrite forallb_forall in Hl. auto.
Qed.

(** The operations after the loop, one case for each length. *)
Lemma follows_cases l :
  follows after_ready l = true ->
  l = []
  \/ (exists q, l = [q] /\ is_node_query q = true)
  \/ (exists q p, l = [q; p] /\ is_node_query q = true /\ is_popen p = true)
  \/ (exists q p b, l = [q; p; b] /\ is_node_query q = true
                    /\ is_popen p = true /\ is_browser b = true)
  \/ (exists q p b x, l = [q; p; b; x] /\ is_node_query q = true
                      /\ is_popen p = true /\ is_browser b = true
                      /\ is_wait x = true)
  \/ (exists q p b x c, l = [q; p; b; x; c] /\ is_node_query q = true
                        /\ is_popen p = true /\ is_browser b = true
                        /\ is_wait x = true /\ is_cancel c = true).
Proof.
  unfold after_ready. intros H.
  destruct l as [| q [| p [| b [| x [| c [| y l]]]]]]; cbn [follows] in H;
    repeat match goal with
      | H : _ && _ = true |- _ => apply andb_true_iff in H; destruct H
      end; try discriminate.
  - left. reflexivity.
  - right. left. exists q. split; [reflexivity | assumption].
  - right. right. left. exists q, p. repeat split; assumption.
  - right. right. right. left. exists q, p, b. repeat split; assumption.
  - right. right. right. right. left. exists q, p, b, x.
    repeat split; assumption.
  - right. right. right. right. right. exists q, p, b, x, c.
    repeat split; assumption.
Qed.

Lemma follows_late l : follows after_ready l = true -> Forall late l.
Proof.
  intros H.
  destruct (follows_cases l H)
    as [-> | [(q & -> & Hq) | [(q & p & -> & Hq & Hp)
       | [(q & p & b & -> & Hq & Hp & Hb)
       | [(q & p & b & x & -> & Hq & Hp & Hb & Hx)
       | (q & p & b & x & c & -> & Hq & Hp & Hb & Hx & Hc)]]]]];
    repeat constructor;
    first [ apply (node_late _ Hq) | apply (popen_late _ Hp)
          | apply (browser_late _ Hb) | apply (wait_late _ Hx)
          | apply (cancel_late _ Hc) ].
Qed.

(** A mark after early operations is in what follows them. *)
Lemma split_after (P : op -> bool) a : forall b x o y,
  (a ++ b)%list = (x ++ o :: y)%list ->
  Forall (fun e => P e = false) a -> P o = true ->
  exists z, b = (z ++ o :: y)%list.
Proof.
  induction a as [| e a IH]; intros b x o y E Ha Ho.
  - exists x. exact E.
  - inversion Ha as [| ? ? He Ha']; subst.
    destruct x as [| e' x]; cbn in E; injection E as -> E.
    + congruence.
    + apply (IH b x o y E Ha' Ho).
Qed.

End TraceFacts.

(** ** Where the keyboard interrupt goes *)

Module Interrupts.

Lemma propagates_nil w {A} t (r : outcome A) : propagates w t r [].
Proof. intros i o H. destruct i; discriminate H. Qed.

(** A computation without operations. *)
Lemma prop_silent w {A} (m : M A) :
  (forall st, ops (snd (m st)) = ops st) -> spec m (propagates w).
Proof.
  intros H st. exists []. rewrite List.app_nil_r.
  split; [apply H | apply propagates_nil].
Qed.

Lemma prop_get_var w var d : spec (get_var w var d) (propagates w).
Proof.
  apply prop_silent. intros st. unfold get_var.
  destruct (lookup var (environ w)); [reflexivity |].
  destruct (truthy d); [destruct d |]; reflexivity.
Qed.

Lemma prop_perform w o : spec (perform w o) (propagates w).
Proof.
  intros st. exists [o]. unfold perform.
  destruct (sigint w (tick st)) eqn:E; cbn [fst snd ops];
    (split; [reflexivity |]);
    intros i x Hi Hs Hw; (destruct i as [| i]; [| destruct i; discriminate Hi]).
  - split; reflexivity.
  - rewrite Nat.add_0_r in Hs. congruence.
Qed.

Lemma prop_bind w {A B} (m : M A) (k : A -> M B) :
  spec m (propagates w) -> (forall a, spec (k a) (propagates w)) ->
  spec (bind m k) (propagates w).
Proof.
  intros Hm Hk.
  eapply Rules.spec_bind'; [exact Hm | intros a _; apply Hk |].
  intros t r l [(a & l1 & l2 & -> & H1 & H2) | [(e & -> & H1) | (-> & H1)]];
    intros i o Hi Hs Hw.
  - destruct (Nat.lt_ge_cases i (List.length l1)) as [Hlt | Hge].
    + rewrite nth_error_app1 in Hi by exact Hlt.
      destruct (H1 i o Hi Hs Hw) as [_ C]. discriminate C.
    + rewrite nth_error_app2 in Hi by exact Hge.
      destruct (H2 (i - List.length l1) o Hi) as [E ->].
      * replace (t + List.length l1 + (i - List.length l1)) with (t + i)
          by lia.
        exact Hs.
      * exact Hw.
      * split; [rewrite List.length_app; lia | reflexivity].
  - destruct (H1 i o Hi Hs Hw) as [E C]. injection C as ->.
    split; [exact E | reflexivity].
  - destruct (H1 i o Hi Hs Hw) as [_ C]. discriminate C.
Qed.

Ltac prop_step :=
  cbn zeta;
  first
    [ apply prop_perform
    | apply prop_get_var
    | apply prop_silent; intros ?; reflexivity
    | match goal with
      | |- spec (match ?x with _ => _ end) _ => destruct x
      end
    | apply prop_bind; [| intros ?] ].

Lemma prop_run w cmd_list local debug :
  spec (run w cmd_list local debug) (propagates w).
Proof. unfold run, subprocess_run. repeat prop_step. Qed.

Ltac prop_fun := repeat first [apply prop_run | prop_step].

Lemma prop_create_job_script w : spec (create_job_script w) (propagates w).
Proof. unfold create_job_script. prop_fun. Qed.

Lemma prop_send_job_script w path :
  spec (send_job_script w path) (propagates w).
Proof. unfold send_job_script. prop_fun. Qed.

Lemma prop_check_job_dir w : spec (check_job_dir w) (propagates w).
Proof. unfold check_job_dir. prop_fun. Qed.

Lemma prop_launch_job w name : spec (launch_job w name) (propagates w).
Proof. unfold launch_job. prop_fun. Qed.

Lemma prop_check_jobfailure w job :
  spec (check_jobfailure w job) (propagates w).
Proof. unfold check_jobfailure. prop_fun. Qed.

Lemma prop_get_node w job : spec (get_node w job) (propagates w).
Proof. unfold get_node. prop_fun. Qed.

Lemma prop_delete_job w job : spec (delete_job w job) (propagates w).
Proof. unfold delete_job. prop_fun. Qed.

Lemma prop_get_jupyter_url w job :
  spec (get_jupyter_url w job) (propagates w).
Proof. unfold get_jupyter_url. prop_fun. Qed.

Lemma prop_poll w fuel : forall job count,
  spec (poll w fuel job count) (propagates w).
Proof.
  induction fuel as [| fuel IH]; intros job count; cbn [poll].
  - apply prop_silent. intros st. reflexivity.
  - repeat first
      [ apply IH | apply prop_get_jupyter_url | apply prop_check_jobfailure
      | prop_step ].
Qed.

(** The wait on the tunnel: its interrupt is handled, and an interrupt of
    the handler is not. *)
Lemma prop_wait w job :
  spec (except_KeyboardInterrupt (perform w Wait ;; ret tt) (delete_job w job))
    (propagates w).
Proof.
  intros st. unfold except_KeyboardInterrupt, bind, perform, ret.
  destruct (sigint w (tick st)) eqn:E.
  - set (st1 := State (ops st ++ [Wait]) (out st)).
    destruct (prop_delete_job w job st1) as (l & El & Hl).
    exists (Wait :: l). split.
    + rewrite El. cbn [ops st1]. rewrite <- List.app_assoc. reflexivity.
    + intros [| i] o Hi Hs Hw.
      * injection Hi as <-. discriminate Hw.
      * cbn [nth_error] in Hi.
        assert (Hs' : sigint w (tick st1 + i) = true).
        { unfold tick, st1. cbn [ops]. rewrite List.length_app. cbn [List.length].
          replace (List.length (ops st) + 1 + i) with (tick st + S i)
            by (unfold tick; lia).
          exact Hs. }
        destruct (Hl i o Hi Hs' Hw) as [E1 E2].
        split; [cbn [List.length]; lia | exact E2].
  - exists [Wait]. split; [reflexivity |].
    intros i o Hi Hs Hw. destruct i as [| i]; [| destruct i; discriminate Hi].
    rewrite Nat.add_0_r in Hs. congruence.
Qed.

Lemma prop_connect w job url : spec (connect w job url) (propagates w).
Proof.
  unfold connect.
  repeat first [apply prop_wait | apply prop_get_node | prop_step].
Qed.

(** Every run of [main]: the interrupt of any operation but the wait ends
    the run there. *)
Lemma prop_main w fuel : spec (main w fuel) (propagates w).
Proof.
  unfold main.
  repeat first
    [ apply prop_create_job_script | apply prop_send_job_script
    | apply prop_launch_job | apply prop_poll | apply prop_connect
    | prop_step ].
Qed.

End Interrupts.

(** * The claims *)

Import StrFacts RunFacts Steps.

(** C6 (as stated, refuted): [get_var] with a name that is absent and the
    empty string as default does not return the empty string: it raises
    the error of a missing variable. *)
Lemma C6_empty_default_fails :
  get_var Demo.bare "WORKDIR" (Some EmptyString) initial
  = (Raise (RuntimeError "Please set WORKDIR environment variable"), initial)
  /\ fst (get_var Demo.bare "WORKDIR" (Some EmptyString) initial)
     <> Ok EmptyString.
Proof. split; [reflexivity | discriminate]. Qed.

(** C6 (amended): [get_var var default] fails, with the error of a missing
    variable, if and only if [var] is absent from the environment and the
    default is [None] or the empty string; a present variable is returned
    as it is (also when empty), a non-empty default is returned when the
    variable is absent, and the state is never changed. *)
Theorem C6_get_var_fails_iff (w : world) (var : string)
    (default : option string) (st : state) :
  ((exists e, fst (get_var w var default st) = Raise e) <->
   (lookup var (environ w) = None /\
    (default = None \/ default = Some EmptyString)))
  /\ (forall e, fst (get_var w var default st) = Raise e -> e = missing var)
  /\ (forall v, lookup var (environ w) = Some v ->
                fst (get_var w var default st) = Ok v)
  /\ (forall d, lookup var (environ w) = None -> default = Some d ->
                d <> EmptyString -> fst (get_var w var default st) = Ok d)
  /\ snd (get_var w var default st) = st.
Proof.
  unfold get_var.
  destruct (lookup var (environ w)) as [v |] eqn:E;
    [| destruct default as [[| c d] |]]; cbn;
    repeat split; intros;
    repeat match goal with
      | H : exists _, _ |- _ => destruct H
      | H : _ /\ _ |- _ => destruct H
      | H : _ \/ _ |- _ => destruct H
      end;
    try discriminate; try congruence; eauto.
  all: match goal with H : Raise _ = Raise _ |- _ => injection H as <- end;
    reflexivity.
Qed.



Ltac break_goal :=
  repeat (cbn [fst snd ops out];
          match goal with
          | |- context [match ?x with _ => _ end] =>
              lazymatch x with
              | context [match _ with _ => _ end] => fail
              | _ => destruct x eqn:?
              end
          end).

(** C9: with [CLUSTER] unset every function that runs a command, local or
    not, fails with the error of the missing variable and executes
    nothing; so does [main], which performs no command at all. *)
Theorem C9_cluster_unset_fails_first (w : world) :
  lookup "CLUSTER" (environ w) = None ->
  (forall cmd_list local debug st,
      run w cmd_list local debug st = (Raise (missing "CLUSTER"), st))
  /\ (forall path st,
        send_job_script w path st = (Raise (missing "CLUSTER"), st))
  /\ (forall st,
        fst (check_job_dir w st) = Raise (missing "CLUSTER")
        /\ ops (snd (check_job_dir w st)) = ops st)
  /\ (forall name st,
        fst (launch_job w name st) = Raise (missing "CLUSTER")
        /\ ops (snd (launch_job w name st)) = ops st)
  /\ (forall job st,
        check_jobfailure w job st = (Raise (missing "CLUSTER"), st))
  /\ (forall job st,
        get_jupyter_url w job st = (Raise (missing "CLUSTER"), st))
  /\ (forall job st, get_node w job st = (Raise (missing "CLUSTER"), st))
  /\ (forall job st,
        fst (delete_job w job st) = Raise (missing "CLUSTER")
        /\ ops (snd (delete_job w job st)) = ops st)
  /\ (forall fuel st,
        (exists e, fst (main w fuel st) = Raise e)
        /\ exists l, ops (snd (main w fuel st)) = (ops st ++ l)%list
                     /\ forall argv, ~ In (Run argv) l).
Proof.
  intros Ec.
  assert (Hrun : forall cmd_list local debug st,
             run w cmd_list local debug st = (Raise (missing "CLUSTER"), st))
    by (intros; apply run_unset, Ec).
  split; [exact Hrun |].
  split.
  { intros path st. unfold send_job_script.
    apply bind_raise, get_var_unset, Ec. }
  split.
  { intros st. unfold check_job_dir, bind, print, write. rewrite Hrun.
    split; reflexivity. }
  split.
  { intros name st. unfold launch_job, bind, print, write. rewrite Hrun.
    split; reflexivity. }
  split.
  { intros job st. unfold check_jobfailure. apply bind_raise, Hrun. }
  split.
  { intros job st. unfold get_jupyter_url. apply bind_raise, Hrun. }
  split.
  { intros job st. unfold get_node. apply bind_raise, Hrun. }
  split.
  { intros job st. unfold delete_job, bind, print, write. rewrite Hrun.
    split; reflexivity. }
  intros fuel st.
  unfold main, create_job_script, send_job_script, bind, perform, get_var,
    print, write, ret, raise.
  rewrite Ec. cbn [truthy Str.is_empty negb].
  break_goal; cbn [fst snd ops out].
  all: split; [eexists; reflexivity |].
  all: eexists; split;
    [ rewrite <- ?List.app_assoc; reflexivity
    | cbn; intros argv Hin;
      repeat match goal with H : _ \/ _ |- _ => destruct H end;
      try discriminate; try contradiction ].
Qed.



(** C9 at work: staging the script, a local command, with nothing set. *)
Lemma C9_witness :
  send_job_script Demo.bare Demo.tmp initial
  = (Raise (RuntimeError "Please set CLUSTER environment variable"), initial)
  /\ run Demo.bare ["scp"; Demo.tmp; "hpc1:/tmp/"] true false initial
     = (Raise (RuntimeError "Please set CLUSTER environment variable"), initial).
Proof.
  destruct (C9_cluster_unset_fails_first Demo.bare eq_refl) as (H1 & H2 & _).
  split; [apply H2 | apply H1].
Defined.





(** C2: a text without the substring [token] is answered at once with the
    empty string, before any pattern is tried; a text with a URL of the
    grammar gives the host, the port and the token of a URL that is in the
    text, character by character; a text that is exactly a URL gives its
    own three fields; and a text with no URL of the grammar, whether it
    has [token] or not, gives nothing: a result always has the three
    fields. *)
Theorem C2_connection_info :
  (forall text,
      Str.contains "token" text = false ->
      find_url text = EmptyString /\ connection_info text = None)
  /\ (forall text,
        Url.present_in text ->
        exists h p t,
          connection_info text = Some (h, p, t)
          /\ Url.host h /\ Url.port p /\ Url.token t
          /\ find_url text = Url.text h p t
          /\ Url.occurs_in (Url.text h p t) text)
  /\ (forall h p t,
        Url.host h -> Url.port p -> Url.token t ->
        connection_info (Url.text h p t) = Some (h, p, t))
  /\ (forall text, ~ Url.present_in text -> connection_info text = None)
  /\ (forall text h p t,
        connection_info text = Some (h, p, t) ->
        Url.host h /\ Url.port p /\ Url.token t).
Proof.
  assert (Hfound : forall text,
    find_url text <> EmptyString ->
    exists a b c d p t,
      Url.quad a /\ Url.quad b /\ Url.quad c /\ Url.quad d /\ Url.port p
      /\ Url.token t
      /\ find_url text = Url.glue a b c d p t
      /\ connection_info text = Some (Url.dotted a b c d, p, t)
      /\ Url.occurs_in (Url.glue a b c d p t) text).
  { intros text Hne.
    destruct (UrlFacts.find_url_cases text) as [E | H]; [congruence |].
    destruct H as (pre & a & b & c & d & p & mid
                   & Ha & Hb & Hc & Hd & Hp & Hs & Hl & E).
    pose proof (UrlFacts.token_span mid Hl) as Ht.
    exists a, b, c, d, p, (fst (Str.span Str.is_word mid)).
    repeat (split; [assumption |]).
    split.
    - unfold connection_info. rewrite E. cbn [Str.is_empty Url.glue append].
      change (String "h" (String "t" (String "t" (String "p" (String ":"
                (String "/" (String "/" ?x)))))))
        with ("http://" ++ x).
      fold (Url.glue a b c d p (fst (Str.span Str.is_word mid))).
      apply UrlFacts.url_fields_glue; assumption.
    - exists pre, (snd (Str.span Str.is_word mid)).
      rewrite UrlFacts.glue_app, <- UrlFacts.span_eq. exact Hs. }
  split.
  { intros text H. unfold connection_info, find_url. rewrite H.
    split; reflexivity. }
  split.
  { intros text H. apply UrlFacts.present_iff in H.
    destruct (Hfound text H)
      as (a & b & c & d & p & t & Ha & Hb & Hc & Hd & Hp & Ht & E & Ci & Ho).
    exists (Url.dotted a b c d), p, t.
    rewrite UrlFacts.text_glue.
    split; [exact Ci |]. split; [exists a, b, c, d; auto |]. auto. }
  split.
  { intros h p t (a & b & c & d & Ha & Hb & Hc & Hd & ->) Hp Ht.
    rewrite UrlFacts.text_glue. unfold connection_info.
    rewrite UrlFacts.find_url_exact by assumption.
    cbn [Url.glue append Str.is_empty].
    change (String "h" (String "t" (String "t" (String "p" (String ":"
              (String "/" (String "/" ?x)))))))
      with ("http://" ++ x).
    fold (Url.glue a b c d p t).
    apply UrlFacts.url_fields_glue; assumption. }
  split.
  { intros text H. apply UrlFacts.absent_iff in H.
    unfold connection_info. rewrite H. reflexivity. }
  intros text h p t H.
  assert (Hne : find_url text <> EmptyString).
  { intros E. unfold connection_info in H. rewrite E in H. discriminate. }
  destruct (Hfound text Hne)
    as (a & b & c & d & p' & t' & Ha & Hb & Hc & Hd & Hp & Ht & _ & Ci & _).
  rewrite Ci in H. injection H as <- <- <-.
  split; [exists a, b, c, d; auto | auto].
Qed.

(** C2 on the text of the specification's scenario, and on a log whose
    [token] line has no URL of the grammar. *)
Example C2_scenario :
  connection_info "... http://10.0.0.5:9700/?token=abc123 ..."
  = Some ("10.0.0.5", "9700", "abc123").
Proof. vm_compute. reflexivity. Qed.

Example C2_partial :
  connection_info "use the token at http://node05:9700/?token=abc123"
  = None.
Proof. vm_compute. reflexivity. Qed.

(** C10: a string that [get_jupyter_url] returns, when it is not empty, is
    a URL of the grammar [http://a.b.c.d:p/?token=t]; the anchored match
    of [main] succeeds on it and binds the three fields; so no run of
    [main] ends in the error of an unbound [ip], [port] or [token]. *)
Theorem C10_rematch_succeeds (w : world) (job : string) (st : state)
    (url : string) :
  fst (get_jupyter_url w job st) = Ok url ->
  url <> EmptyString ->
  Url.well_formed url
  /\ (exists h p t, url_fields url = Some (h, p, t) /\ url = Url.text h p t)
  /\ (forall fuel st0 name,
        fst (main w fuel st0) <> Raise (UnboundLocalError name)).
Proof.
  intros Hr Hne.
  destruct (Rules.spec_get_jupyter_url w job st) as (l & _ & _ & Hv).
  rewrite Hr in Hv. destruct Hv as (outs & ->).
  destruct (UrlFacts.find_url_sound outs Hne) as [Hw _].
  split; [exact Hw |]. split.
  - destruct (UrlFacts.well_formed_inv _ Hw)
      as (a & b & c & d & p & t & Ha & Hb & Hc & Hd & Hp & Ht & E).
    exists (Url.dotted a b c d), p, t. rewrite E, UrlFacts.text_glue.
    split; [apply UrlFacts.url_fields_glue; assumption | reflexivity].
  - intros fuel st0 name E.
    destruct (Rules.spec_main w fuel st0)
      as (lm & _ & l0 & l1 & l2 & _ & _ & _ & _ & _ & Hm).
    rewrite E in Hm. exact Hm.
Qed.

(** C10 at work: the readiness check on the log of the scenario. *)
Lemma C10_witness :
  Url.well_formed "http://10.0.0.5:9700/?token=abc123"
  /\ url_fields "http://10.0.0.5:9700/?token=abc123"
     = Some ("10.0.0.5", "9700", "abc123").
Proof.
  destruct (C10_rematch_succeeds Demo.failing "4821" initial
              "http://10.0.0.5:9700/?token=abc123")
    as (Hw & _ & _).
  - vm_compute. reflexivity.
  - discriminate.
  - split; [exact Hw | vm_compute; reflexivity].
Defined.







(** C4 (as stated, refuted): the interrupt arrives during the first sleep
    of the loop, after the submission; the run ends with the interrupt and
    no cancellation was invoked. *)
Lemma C4_interrupt_in_loop_no_cancel :
  fst (main Demo.interrupted_poll 5 initial) = Raise KeyboardInterrupt
  /\ existsb (Trace.runs "sbatch")
       (ops (snd (main Demo.interrupted_poll 5 initial))) = true
  /\ Trace.count Trace.is_cancel
       (ops (snd (main Demo.interrupted_poll 5 initial))) = 0.
Proof. vm_compute. repeat split. Qed.

Lemma main_shape w fuel st :
  exists l0 l1 l2,
    ops (snd (main w fuel st)) = (ops st ++ l0 ++ l1 ++ l2)%list
    /\ Forall Trace.early l0 /\ Forall Trace.early l1
    /\ forallb Trace.is_setup l0 = true /\ forallb Trace.is_poll l1 = true
    /\ Trace.follows Trace.after_ready l2 = true
    /\ (List.length l2 = 5 <->
        4 <= List.length l2 /\
        sigint w (tick st + List.length l0 + List.length l1 + 3) = true)
    /\ match fst (main w fuel st) with
       | Raise (SystemExit s) =>
           s = 1%Z /\ l2 = [] /\ Trace.ends_with_accounting l1
       | Raise (UnboundLocalError _) => False
       | _ => True
       end.
Proof.
  destruct (Rules.spec_main w fuel st)
    as (l & El & l0 & l1 & l2 & -> & H0 & H1 & Hf & Hi & Hr).
  exists l0, l1, l2. split; [exact El |].
  split; [apply (TraceFacts.forallb_Forall _ _ _ TraceFacts.setup_early H0) |].
  split; [apply (TraceFacts.forallb_Forall _ _ _ TraceFacts.poll_early H1) |].
  auto.
Qed.

(** The cancellation in a run of [main]: exactly when the wait was
    interrupted, and then last. *)
Lemma cancel_at_wait (w : world) (fuel : nat) (st : state) :
  exists l,
    ops (snd (main w fuel st)) = (ops st ++ l)%list
    /\ Trace.count Trace.is_cancel l
       = (if Trace.wait_interrupted w (tick st) l then 1 else 0)
    /\ Trace.count Trace.is_wait l <= 1
    /\ (Trace.wait_interrupted w (tick st) l = true ->
        exists l' c, l = (l' ++ [Wait; c])%list /\ Trace.is_cancel c = true).
Proof.
  destruct (main_shape w fuel st)
    as (l0 & l1 & l2 & El & E0 & E1 & _ & _ & Hf & Hi & _).
  exists (l0 ++ l1 ++ l2)%list. split; [exact El |].
  destruct (TraceFacts.early_quiet w l0 E0) as (C0 & W0 & _ & _ & I0).
  destruct (TraceFacts.early_quiet w l1 E1) as (C1 & W1 & _ & _ & I1).
  rewrite !TraceFacts.count_ops_app, !TraceFacts.wait_interrupted_app,
    C0, C1, W0, W1, I0, I1.
  cbn [orb Nat.add].
  assert (Hi' : List.length l2 = 5 <->
                4 <= List.length l2 /\
                sigint w (tick st + List.length l0 + List.length l1 + 3) = true)
    by exact Hi.
  clear Hi.
  replace (tick st + List.length l0 + List.length l1 + 3)
    with (S (S (S (tick st + List.length l0 + List.length l1)))) in Hi' by lia.
  set (t2 := tick st + List.length l0 + List.length l1) in *.
  destruct (TraceFacts.follows_cases l2 Hf)
    as [-> | [(q & -> & Hq) | [(q & p & -> & Hq & Hp)
       | [(q & p & b & -> & Hq & Hp & Hb)
       | [(q & p & b & x & -> & Hq & Hp & Hb & Hx)
       | (q & p & b & x & c & -> & Hq & Hp & Hb & Hx & Hc)]]]]];
    try (destruct (TraceFacts.node_late _ Hq) as (_ & Hqc & Hqw));
    try (destruct (TraceFacts.popen_late _ Hp) as (_ & Hpc & Hpw));
    try (destruct (TraceFacts.browser_late _ Hb) as (_ & Hbc & Hbw));
    try (destruct (TraceFacts.wait_late _ Hx) as (_ & Hxc));
    try (destruct (TraceFacts.cancel_late _ Hc) as (_ & Hcw));
    unfold Trace.count; cbn [filter Trace.wait_interrupted List.length];
    rewrite ?Hqc, ?Hqw, ?Hpc, ?Hpw, ?Hbc, ?Hbw, ?Hxc, ?Hx, ?Hc, ?Hcw;
    cbn [andb orb List.length].
  - repeat split; try lia; try discriminate.
  - repeat split; try lia; try discriminate.
  - repeat split; try lia; try discriminate.
  - repeat split; try lia; try discriminate.
  - cbn [List.length] in Hi'.
    assert (Hs : sigint w (S (S (S t2))) = false).
    { destruct (sigint w (S (S (S t2)))) eqn:E; [| reflexivity]. exfalso.
      assert (4 = 5); [| lia]. apply Hi'. split; [lia | reflexivity]. }
    rewrite Hs. cbn [orb]. repeat split; try lia; try discriminate.
  - cbn [List.length] in Hi'.
    assert (Hs : sigint w (S (S (S t2))) = true) by (apply Hi'; reflexivity).
    rewrite Hs. cbn [orb]. repeat split; try lia.
    intros _. assert (x = Wait) by (destruct x; try discriminate; reflexivity).
    subst x. exists (l0 ++ l1 ++ [q; p; b])%list, c.
    rewrite <- !List.app_assoc. split; [reflexivity | exact Hc].
Qed.


(** C4 (amended): in every run of [main] the cancellation of the job is
    invoked exactly when the keyboard interrupt arrives during the wait on
    the tunnel process, and then once, directly after the wait and as the
    last operation of the run; the interrupt of any other operation ends
    the run at that operation with [KeyboardInterrupt], and, unless that
    operation is the cancellation itself, without any cancellation. *)
Theorem C4_cancel_iff_wait_interrupted (w : world) (fuel : nat) (st : state) :
  exists l,
    ops (snd (main w fuel st)) = (ops st ++ l)%list
    /\ Trace.count Trace.is_cancel l
       = (if Trace.wait_interrupted w (tick st) l then 1 else 0)
    /\ Trace.count Trace.is_wait l <= 1
    /\ (Trace.wait_interrupted w (tick st) l = true ->
        exists l' c, l = (l' ++ [Wait; c])%list /\ Trace.is_cancel c = true)
    /\ (forall i o,
          nth_error l i = Some o -> sigint w (tick st + i) = true ->
          Trace.is_wait o = false ->
          S i = List.length l
          /\ fst (main w fuel st) = Raise KeyboardInterrupt
          /\ (Trace.is_cancel o = false -> Trace.count Trace.is_cancel l = 0)).
Proof.
  destruct (cancel_at_wait w fuel st) as (l & El & Hc & Hw & Hl).
  destruct (Interrupts.prop_main w fuel st) as (l' & El' & Hp).
  assert (l' = l) by (apply (List.app_inv_head (ops st)); congruence).
  subst l'. exists l.
  split; [exact El |]. split; [exact Hc |]. split; [exact Hw |].
  split; [exact Hl |].
  intros i o Hi Hs Ho. destruct (Hp i o Hi Hs Ho) as [Hlast Hr].
  split; [exact Hlast |]. split; [exact Hr |].
  intros Hnc. rewrite Hc.
  destruct (Trace.wait_interrupted w (tick st) l) eqn:Ew; [| reflexivity].
  exfalso. destruct (Hl eq_refl) as (l0 & c & -> & Hcc).
  rewrite List.length_app in Hlast. cbn [List.length] in Hlast.
  rewrite nth_error_app2 in Hi by lia.
  replace (i - List.length l0) with 1 in Hi by lia.
  cbn [nth_error] in Hi. injection Hi as <-. congruence.
Qed.

(** C4 at work: the interrupt during the wait of the scenario. *)
Example C4_interrupted_wait :
  fst (main Demo.interrupted_wait 5 initial) = Ok tt
  /\ Trace.count Trace.is_cancel
       (ops (snd (main Demo.interrupted_wait 5 initial))) = 1
  /\ last (ops (snd (main Demo.interrupted_wait 5 initial))) Sleep
     = Run (scancel_argv "hpc1" "4821").
Proof. vm_compute. repeat split. Qed.

(** C4 at work: the interrupt during the first sleep of the loop ends the
    run there. *)
Lemma C4_witness :
  fst (main Demo.interrupted_poll 5 initial) = Raise KeyboardInterrupt
  /\ Trace.count Trace.is_cancel
       (ops (snd (main Demo.interrupted_poll 5 initial))) = 0.
Proof.
  destruct (C4_cancel_iff_wait_interrupted Demo.interrupted_poll 5 initial)
    as (l & El & _ & _ & _ & H).
  assert (E : l = ops (snd (main Demo.interrupted_poll 5 initial)))
    by (rewrite El; reflexivity).
  rewrite <- E.
  assert (Hi : nth_error l 4 = Some Sleep) by (rewrite E; reflexivity).
  destruct (H 4 Sleep Hi eq_refl eq_refl) as (_ & Hr & Hc).
  split; [exact Hr | apply Hc; reflexivity].
Defined.

Lemma existsb_early (P : op -> bool) l :
  Forall (fun o => P o = false) l -> existsb P l = false.
Proof.
  induction 1 as [| o l Ho _ IH]; [reflexivity |].
  cbn [existsb]. rewrite Ho, IH. reflexivity.
Qed.

Lemma early_not_node l :
  Forall Trace.early l -> Forall (fun o => Trace.is_node_query o = false) l.
Proof. apply Forall_impl. intros o (H & _). exact H. Qed.

Lemma early_not_cancel l :
  Forall Trace.early l -> Forall (fun o => Trace.is_cancel o = false) l.
Proof. apply Forall_impl. intros o (_ & H & _). exact H. Qed.

Lemma early_not_mark l :
  Forall Trace.early l ->
  Forall (fun o => Trace.is_node_query o || Trace.is_cancel o = false) l.
Proof. apply Forall_impl. intros o (H1 & H2 & _). rewrite H1, H2. reflexivity. Qed.

Lemma late_suffix z : forall o y,
  Forall Trace.late (z ++ o :: y) ->
  forallb (fun e => negb (Trace.is_query e)) y = true.
Proof.
  intros o y H. apply Forall_app in H. destruct H as [_ H].
  inversion H as [| ? ? _ Hy]; subst.
  apply forallb_forall. intros e He.
  rewrite Forall_forall in Hy. rewrite (Hy e He). reflexivity.
Qed.

Lemma cancelled_early_app l l' :
  Forall Trace.early l ->
  Trace.cancelled_early (l ++ l') = Trace.cancelled_early l'.
Proof.
  induction 1 as [| o l (Hn & Hc & _) _ IH]; [reflexivity |].
  cbn [List.app Trace.cancelled_early]. rewrite Hn, Hc. exact IH.
Qed.

(** After the loop no job is cancelled that is not [Ready]: the node query
    comes first. *)
Lemma cancelled_early_after_ready l :
  Trace.follows Trace.after_ready l = true -> Trace.cancelled_early l = false.
Proof.
  destruct l as [| q l]; [reflexivity |].
  cbn [Trace.follows Trace.after_ready Trace.cancelled_early].
  intros H. apply andb_true_iff in H. destruct H as [Hq _].
  rewrite Hq. reflexivity.
Qed.

(** C8: in every run of [main] the job reaches at most one of the terminal
    states Ready, Failed and Cancelled, and once it is terminal no
    readiness check and no accounting query is made for it: a job that is
    Failed is never Ready, the accounting query that found the failure is
    the last operation of the run, a cancellation is only made for a job
    that is Ready, which it leaves Ready, and nothing that follows the node
    query or the cancellation is a check of the loop. *)
Theorem C8_at_most_one_terminal_state (w : world) (fuel : nat) (st : state) :
  exists l,
    ops (snd (main w fuel st)) = (ops st ++ l)%list
    /\ List.length (Trace.terminal_states (fst (main w fuel st)) l) <= 1
    /\ (Trace.reached Trace.Failed (fst (main w fuel st)) l = true ->
        fst (main w fuel st) = Raise (SystemExit 1)
        /\ Trace.ends_with_accounting l)
    /\ (existsb Trace.is_cancel l = true ->
        Trace.terminal_states (fst (main w fuel st)) l = [Trace.Ready])
    /\ (forall l1 o l2,
          l = (l1 ++ o :: l2)%list ->
          Trace.is_node_query o || Trace.is_cancel o = true ->
          forallb (fun e => negb (Trace.is_query e)) l2 = true).
Proof.
  destruct (main_shape w fuel st)
    as (l0 & l1 & l2 & El & E0 & E1 & _ & _ & Hf & _ & Hr).
  exists (l0 ++ l1 ++ l2)%list. split; [exact El |].
  assert (E01 : Forall Trace.early (l0 ++ l1)) by (apply Forall_app; auto).
  assert (Hc : Trace.cancelled_early (l0 ++ l1 ++ l2) = false).
  { rewrite !cancelled_early_app by assumption.
    apply cancelled_early_after_ready, Hf. }
  assert (Hn : existsb Trace.is_node_query (l0 ++ l1 ++ l2)
               = existsb Trace.is_node_query l2).
  { rewrite !existsb_app,
      (existsb_early _ _ (early_not_node _ E0)),
      (existsb_early _ _ (early_not_node _ E1)). reflexivity. }
  assert (Hk : existsb Trace.is_cancel (l0 ++ l1 ++ l2)
               = existsb Trace.is_cancel l2).
  { rewrite !existsb_app,
      (existsb_early _ _ (early_not_cancel _ E0)),
      (existsb_early _ _ (early_not_cancel _ E1)). reflexivity. }
  assert (Hx : Trace.reached Trace.Failed (fst (main w fuel st))
                 (l0 ++ l1 ++ l2) = true ->
               l2 = []
               /\ fst (main w fuel st) = Raise (SystemExit 1)
               /\ Trace.ends_with_accounting (l0 ++ l1 ++ l2)).
  { cbn [Trace.reached]. intros HF.
    destruct (fst (main w fuel st)) as [[] | [] |]; try discriminate.
    destruct Hr as (-> & -> & l' & o & -> & Ho).
    split; [reflexivity |]. split; [reflexivity |].
    exists (l0 ++ l')%list, o.
    rewrite List.app_nil_r, <- List.app_assoc. auto. }
  split.
  { unfold Trace.terminal_states. cbn [filter Trace.reached].
    rewrite Hc, Hn.
    destruct (existsb Trace.is_node_query l2) eqn:En.
    - destruct (Trace.reached Trace.Failed (fst (main w fuel st))
                  (l0 ++ l1 ++ l2)) eqn:EF.
      + destruct (Hx eq_refl) as (-> & _). discriminate En.
      + cbn [Trace.reached] in EF. rewrite EF. cbn [List.length]. lia.
    - destruct (fst (main w fuel st)) as [[] | [] |]; cbn [List.length]; lia. }
  split.
  { intros HF. destruct (Hx HF) as (_ & H1 & H2). auto. }
  split.
  { rewrite Hk. intros Hcl.
    assert (En : existsb Trace.is_node_query l2 = true).
    { destruct l2 as [| q l2]; [discriminate Hcl |].
      cbn [Trace.follows Trace.after_ready] in Hf.
      apply andb_true_iff in Hf. destruct Hf as [Hq _].
      cbn [existsb]. rewrite Hq. reflexivity. }
    unfold Trace.terminal_states. cbn [filter Trace.reached].
    rewrite Hc, Hn, En.
    destruct (fst (main w fuel st)) as [[] | [] |]; try reflexivity.
    destruct Hr as (_ & -> & _). discriminate En. }
  intros x o y E Ho.
  rewrite List.app_assoc in E.
  destruct (TraceFacts.split_after
              (fun e => Trace.is_node_query e || Trace.is_cancel e)
              (l0 ++ l1)%list l2 x o y E (early_not_mark _ E01) Ho)
    as (z & ->).
  apply (late_suffix z o y), TraceFacts.follows_late, Hf.
Qed.

(** C8 at work: the run that fails, and the run whose wait is interrupted:
    the job is cancelled when it is Ready, and stays Ready. *)
Example C8_failed_run :
  Trace.terminal_states
    (fst (main Demo.failing 5 initial))
    (ops (snd (main Demo.failing 5 initial)))
  = [Trace.Failed].
Proof. vm_compute. reflexivity. Qed.

Example C8_cancelled_when_ready :
  Trace.terminal_states
    (fst (main Demo.interrupted_wait 5 initial))
    (ops (snd (main Demo.interrupted_wait 5 initial)))
  = [Trace.Ready]
  /\ Trace.count Trace.is_cancel
       (ops (snd (main Demo.interrupted_wait 5 initial))) = 1.
Proof. vm_compute. split; reflexivity. Qed.
